(** * ReACT extractor: a shallow embedding of [react_extractor/extractor.py]

    The development follows the source file function by function:

    - [filter_json_by_features], the entry selector;
    - [calculate_feature_differences], the feature trend evaluator;
    - [ReACT_Extractor], the single-month pipeline;
    - the [--all] branch of [main], called [main_all] here.

    pandas and numpy are libraries the source calls; the part of their
    behaviour the source relies on ([Series.sum], [Series.mean], boolean-mask
    indexing, [unique]) is written out over an interface of scalar operations
    ([Numeric]) whose instance is IEEE binary64, what pandas computes with.
    Python objects that are shared by reference (the reference entries, the
    lists holding them) live in an explicit object store.

    The table is one that [pandas.read_csv] returns: its column labels are
    distinct (a repeated header is renamed on reading) and every column is an
    int64 or a float64 column.  Writing the result is modelled as it goes
    when the file system accepts it: failures of [open], of the write and of
    [print] are not part of the model. *)

From Stdlib Require Import ZArith QArith Qround List String Ascii Bool Lia.
From Stdlib Require Import Permutation Sorted Floats.
From stdpp Require Import gmap strings.

Import ListNotations.
Local Open Scope Z_scope.
Local Open Scope string_scope.
Local Open Scope list_scope.

(** ** Scalars of a numeric column *)

(** The operations of a float64 scalar that the program uses, directly or
    through pandas. *)
Class Numeric (num : Type) := {
  num_zero : num;
  num_nan : num;
  num_add : num -> num -> num;
  num_sub : num -> num -> num;
  num_div : num -> num -> num;
  (** conversion of an integer (int64 cell, Python int) to the scalar type *)
  num_of_Z : Z -> num;
  (** Python's [int(x)]: truncation toward zero, an exception on NaN and
      on the infinities *)
  num_to_Z : num -> option Z;
  num_isnan : num -> bool;
  num_isinf : num -> bool;
  num_eqb : num -> num -> bool;
  num_ltb : num -> num -> bool;
  num_leb : num -> num -> bool
}.

(** Order facts used by the claims about the sign of a difference.  They hold
    for binary64. *)
Class NumericOrder (num : Type) `{Numeric num} : Prop := {
  num_pos_not_le : forall d : num,
    num_ltb num_zero d = true -> num_leb d num_zero = false;
  num_zero_sub_nonneg : forall m : num,
    num_leb num_zero m = true -> num_leb (num_sub num_zero m) num_zero = true;
  num_of_Z_0 : num_of_Z 0 = num_zero
}.

(** Integers below [2 ^ 53] in absolute value are scalars, and the sum of two
    of them is not rounded when it is below [2 ^ 53] as well.  This holds for
    binary64, whose mantissa has 53 bits. *)
Class NumericIntegers (num : Type) `{Numeric num} : Prop := {
  num_add_of_Z : forall a b : Z,
    Z.abs a < 2 ^ 53 -> Z.abs b < 2 ^ 53 -> Z.abs (a + b) < 2 ^ 53 ->
    num_add (num_of_Z a) (num_of_Z b) = num_of_Z (a + b);
  num_zero_of_Z : num_zero = num_of_Z 0;
  num_isnan_of_Z : forall a : Z,
    Z.abs a < 2 ^ 53 -> num_isnan (num_of_Z a) = false
}.

(** NaN facts: a difference whose subtrahend is NaN compares as not at most
    zero.  This holds for binary64. *)
Class NumericNaN (num : Type) `{Numeric num} : Prop := {
  num_sub_nan_not_le : forall x : num,
    num_leb (num_sub x num_nan) num_zero = false
}.

(** *** IEEE binary64 *)

Module F64.

(** Nearest-even rounding of an integer to binary64. *)
Definition of_Z (z : Z) : float :=
  SF2Prim (binary_normalize prec emax z 0 false).

(** [int(x)] of Python on a float. *)
Definition to_Z (x : float) : option Z :=
  match Prim2SF x with
  | S754_zero _ => Some 0
  | S754_finite s m e =>
      let a := match e with
               | Zneg p => Z.shiftr (Zpos m) (Zpos p)
               | _ => Z.shiftl (Zpos m) e
               end in
      Some (if s then - a else a)
  | S754_infinity _ | S754_nan => None
  end.

#[global] Instance numeric : Numeric float := {|
  num_zero := PrimFloat.zero;
  num_nan := PrimFloat.nan;
  num_add := PrimFloat.add;
  num_sub := PrimFloat.sub;
  num_div := PrimFloat.div;
  num_of_Z := of_Z;
  num_to_Z := to_Z;
  num_isnan := PrimFloat.is_nan;
  num_isinf := PrimFloat.is_infinity;
  num_eqb := PrimFloat.eqb;
  num_ltb := PrimFloat.ltb;
  num_leb := PrimFloat.leb
|}.

End F64.

(** ** Exceptions *)

Inductive exn : Type :=
| KeyError (key : string)
| ValueError
| OverflowError
| TypeError.

Inductive result (A : Type) : Type :=
| Ok (a : A)
| Raise (e : exn).

Arguments Ok {A} a.
Arguments Raise {A} e.

Definition bind {A B : Type} (c : result A) (k : A -> result B) : result B :=
  match c with
  | Ok a => k a
  | Raise e => Raise e
  end.

Notation "'let*' x ':=' c 'in' k" := (bind c (fun x => k))
  (at level 10, x name, c at level 100, k at level 200).

(** A [for x in l: ...] loop whose body updates the loop state [s] and may
    raise. *)
Fixpoint for_each {A S : Type} (l : list A) (body : A -> S -> result S) (s : S)
  : result S :=
  match l with
  | [] => Ok s
  | x :: l' =>
      match body x s with
      | Ok s' => for_each l' body s'
      | Raise e => Raise e
      end
  end.

(** ** Python dictionaries

    A [dict] keeps its keys in insertion order; assigning to a key that is
    already present keeps the key's position and replaces its value. *)

Section PyDict.
Context {K V : Type} `{EqDecision K}.

Definition dict : Type := list (K * V).

Fixpoint dict_set (d : dict) (k : K) (v : V) : dict :=
  match d with
  | [] => [(k, v)]
  | (k', v') :: d' =>
      if decide (k' = k) then (k', v) :: d' else (k', v') :: dict_set d' k v
  end.

Fixpoint dict_get (d : dict) (k : K) : option V :=
  match d with
  | [] => None
  | (k', v') :: d' => if decide (k' = k) then Some v' else dict_get d' k
  end.

Definition dict_items (d : dict) : list (K * V) := d.

Definition dict_keys (d : dict) : list K := map fst d.

End PyDict.

Arguments dict K V : clear implicits.

(** [d[k]] on a dictionary keyed by strings. *)
Definition dict_getitem {V : Type} (d : dict string V) (k : string) : result V :=
  match dict_get d k with
  | Some v => Ok v
  | None => Raise (KeyError k)
  end.

(** ** The metrics table (a pandas [DataFrame]) *)

(** int64 arithmetic of numpy wraps around silently. *)
Definition wrap64 (z : Z) : Z := (z + 2 ^ 63) mod 2 ^ 64 - 2 ^ 63.

(** [select mask l]: the elements of [l] at the positions where [mask] holds
    (boolean-mask indexing). *)
Definition select {A : Type} (mask : list bool) (l : list A) : list A :=
  map snd (List.filter fst (combine mask l)).

(** The distinct elements of a list in order of first appearance, for an
    equality test [same]. *)
Fixpoint unique_by {A : Type} (same : A -> A -> bool) (l : list A) : list A :=
  match l with
  | [] => []
  | x :: l' => x :: List.filter (fun y => negb (same x y)) (unique_by same l')
  end.

(** A stable ascending sort that compares with [lt] only, as [sorted] does. *)
Fixpoint insert_asc {A : Type} (lt : A -> A -> bool) (x : A) (l : list A)
  : list A :=
  match l with
  | [] => [x]
  | y :: l' => if lt y x then y :: insert_asc lt x l' else x :: y :: l'
  end.

Definition sorted_asc {A : Type} (lt : A -> A -> bool) (l : list A) : list A :=
  fold_right (insert_asc lt) [] l.

(** [a & b] on two boolean columns. *)
Definition mask_and (a b : list bool) : list bool :=
  map (fun p => fst p && snd p) (combine a b).

Section Pandas.
Context {num : Type} `{Numeric num}.

(** A column is an int64 column or a float64 column. *)
Inductive Series : Type :=
| SInt (l : list Z)
| SNum (l : list num).

(** What a reduction of a column returns: a numpy int64 or a float64. *)
Inductive scalar : Type :=
| IntScalar (z : Z)
| NumScalar (x : num).

(** The conversion numpy applies when an int64 meets a float64. *)
Definition to_num (s : scalar) : num :=
  match s with
  | IntScalar z => num_of_Z z
  | NumScalar x => x
  end.

(** A table: its columns by label.  The labels of a table are distinct, as
    they are in every table [pandas.read_csv] returns (a header that occurs
    again is renamed when the file is read). *)
#[local] Abbreviation DataFrame := (gmap string Series).

Definition nrows_of (s : Series) : nat :=
  match s with
  | SInt l => length l
  | SNum l => length l
  end.

(** [df[name]] *)
Definition getitem (df : DataFrame) (name : string) : result Series :=
  match df !! name with
  | Some s => Ok s
  | None => Raise (KeyError name)
  end.

(** *** Summation of float64 cells

    numpy adds the cells of a float64 array in pairs ([pairwise_sum] of its
    [loops_utils.h]): fewer than eight cells from left to right; up to 128
    cells on eight running totals, cell [i] going to total [i mod 8], which
    are then added two by two, the cells after the last full round of eight
    being added one by one at the end; more cells by halves, the first half
    having a multiple of eight cells. *)

Definition sum_short (l : list num) : num :=
  match l with
  | [] => num_zero
  | x :: l' => fold_left num_add l' x
  end.

(** One round of the unrolled loop: total [j] takes the [j]th of the next
    cells. *)
Fixpoint lanes_add (r l : list num) : list num :=
  match r, l with
  | x :: r', y :: l' => num_add x y :: lanes_add r' l'
  | _, _ => r
  end.

(** [rounds] rounds of the loop; the eight totals and the cells left over. *)
Fixpoint lanes_loop (rounds : nat) (r l : list num) : list num * list num :=
  match rounds with
  | O => (r, l)
  | S k => lanes_loop k (lanes_add r (firstn 8 l)) (skipn 8 l)
  end.

(** [((r0 + r1) + (r2 + r3)) + ((r4 + r5) + (r6 + r7))]; the second branch is
    for fewer than eight totals, which [sum_block] has on fewer than eight
    cells only. *)
Definition lanes_total (r : list num) : num :=
  match r with
  | [r0; r1; r2; r3; r4; r5; r6; r7] =>
      num_add (num_add (num_add r0 r1) (num_add r2 r3))
              (num_add (num_add r4 r5) (num_add r6 r7))
  | _ => sum_short r
  end.

(** The sum of a block of eight to 128 cells. *)
Definition sum_block (l : list num) : num :=
  let '(r, rest) :=
    lanes_loop (length l / 8 - 1) (firstn 8 l) (skipn 8 l) in
  fold_left num_add rest (lanes_total r).

(** [fuel] bounds the depth of the halving; the length of the list is
    enough ([pairwise_sum_fuel]). *)
Fixpoint pairwise_sum (fuel : nat) (l : list num) : num :=
  let n := length l in
  if (n <? 8)%nat then sum_short l
  else if (n <=? 128)%nat then sum_block l
  else
    match fuel with
    | O => sum_block l
    | S fuel' =>
        let n2 := (n / 2 - (n / 2) mod 8)%nat in
        num_add (pairwise_sum fuel' (firstn n2 l))
                (pairwise_sum fuel' (skipn n2 l))
    end.

(** [a.sum()] of a float64 array: the total starts at zero and the pairwise
    sum of the cells is added to it.  (The sign of a zero total is not
    tracked: no comparison of the program sees it.) *)
Definition float_sum (l : list num) : num :=
  match l with
  | [] => num_zero
  | _ => num_add num_zero (pairwise_sum (length l) l)
  end.

(** The pieces of [size] cells of a list, the last one shorter. *)
Fixpoint chunks_of {A : Type} (fuel size : nat) (l : list A) : list (list A) :=
  match l with
  | [] => []
  | _ =>
      match fuel with
      | O => [l]
      | S fuel' => firstn size l :: chunks_of fuel' size (skipn size l)
      end
  end.

(** [a.sum(dtype=float64)] of an int64 array: numpy converts the cells
    through a buffer of 8192 cells and adds the pairwise sum of each buffer
    to the total. *)
Definition cast_sum (l : list Z) : num :=
  fold_left
    (fun total cells =>
       num_add total (pairwise_sum (length cells) (map num_of_Z cells)))
    (chunks_of (length l) (Z.to_nat 8192) l) num_zero.

(** With [skipna=True], the default, pandas replaces NaN by zero before
    summing and counts the other cells. *)
Definition fillna0 (l : list num) : list num :=
  map (fun x => if num_isnan x then num_zero else x) l.

Definition count_valid (l : list num) : nat :=
  length (List.filter (fun x => negb (num_isnan x)) l).

(** [s.sum()] *)
Definition series_sum (s : Series) : scalar :=
  match s with
  | SInt l => IntScalar (wrap64 (fold_left Z.add l 0))
  | SNum l => NumScalar (float_sum (fillna0 l))
  end.

(** [s.mean()]: the sum, taken in float64, over the count; NaN when there
    is nothing to count. *)
Definition series_mean (s : Series) : num :=
  match s with
  | SInt l =>
      match l with
      | [] => num_nan
      | _ => num_div (cast_sum l) (num_of_Z (Z.of_nat (length l)))
      end
  | SNum l =>
      match count_valid l with
      | O => num_nan
      | n => num_div (float_sum (fillna0 l)) (num_of_Z (Z.of_nat n))
      end
  end.

(** A Python int that meets a float64 column is converted to float64, and
    the conversion raises when the int is too large for a finite float64. *)
Definition float_of_int (k : Z) : result num :=
  if num_isinf (num_of_Z k) then Raise OverflowError else Ok (num_of_Z k).

(** [s >= k] and [s <= k] for a Python int [k]; an int64 column is compared
    exactly. *)
Definition series_ge (s : Series) (k : Z) : result (list bool) :=
  match s with
  | SInt l => Ok (map (fun z => (k <=? z)%Z) l)
  | SNum l => let* b := float_of_int k in Ok (map (fun x => num_leb b x) l)
  end.

Definition series_le (s : Series) (k : Z) : result (list bool) :=
  match s with
  | SInt l => Ok (map (fun z => (z <=? k)%Z) l)
  | SNum l => let* b := float_of_int k in Ok (map (fun x => num_leb x b) l)
  end.

Definition series_select (mask : list bool) (s : Series) : Series :=
  match s with
  | SInt l => SInt (select mask l)
  | SNum l => SNum (select mask l)
  end.

(** [df[mask]]: the rows where [mask] holds, in every column. *)
Definition getitem_mask (df : DataFrame) (mask : list bool) : DataFrame :=
  series_select mask <$> df.

(** ** [calculate_feature_differences] *)

Definition calculate_feature_differences
    (df : DataFrame) (month_n : Z) (feature_list : list string)
  : result (list string) :=
  let* avg_feature_values :=
    for_each feature_list
      (fun feature avg =>
         let* col := getitem df feature in
         Ok (dict_set avg feature (series_mean col)))
      [] in
  let* monthly_feature_values :=
    for_each feature_list
      (fun feature monthly =>
         let* m_lo := getitem df "month" in
         let* lo := series_ge m_lo (month_n - 2) in
         let* m_hi := getitem df "month" in
         let* hi := series_le m_hi month_n in
         let mask := mask_and lo hi in
         let* monthly_values := getitem (getitem_mask df mask) feature in
         Ok (dict_set monthly feature (series_sum monthly_values)))
      [] in
  let* differences :=
    for_each feature_list
      (fun feature differences =>
         let* s := dict_getitem monthly_feature_values feature in
         let* a := dict_getitem avg_feature_values feature in
         Ok (dict_set differences feature (num_sub (to_num s) a)))
      [] in
  Ok (map fst
        (List.filter (fun item => num_leb (snd item) num_zero)
                     (dict_items differences))).

(** *** The evaluator described row by row *)

(** Can the two bounds of the window be compared with the cells of the
    [month] column? *)
Definition window_check (month_n : Z) (months : Series) : result unit :=
  let* _ := series_ge months (month_n - 2) in
  let* _ := series_le months month_n in
  Ok tt.

(** Row by row: does the month of the row lie in [[month_n - 2, month_n]]? *)
Definition in_window (month_n : Z) (months : Series) : list bool :=
  match months with
  | SInt l => map (fun z => (month_n - 2 <=? z)%Z && (z <=? month_n)%Z) l
  | SNum l => map (fun x => num_leb (num_of_Z (month_n - 2)) x
                            && num_leb x (num_of_Z month_n)) l
  end.

(** The cells of [col] on the rows of the window. *)
Definition window_of (month_n : Z) (months col : Series) : Series :=
  series_select (in_window month_n months) col.

(** Window sum minus the mean over all rows. *)
Definition difference (month_n : Z) (months col : Series) : num :=
  num_sub (to_num (series_sum (window_of month_n months col)))
          (series_mean col).

(** The features as the dictionaries of the function list them: each name
    once, at its first position. *)
Definition dedup (l : list string) : list string :=
  unique_by (fun x y => bool_decide (x = y)) l.

Definition has_column (df : DataFrame) (name : string) : Prop :=
  exists s, getitem df name = Ok s.

Definition missing (df : DataFrame) (name : string) : bool :=
  match getitem df name with
  | Ok _ => false
  | Raise _ => true
  end.

(** The column of a name that the table has. *)
Definition column (df : DataFrame) (name : string) : Series :=
  match getitem df name with
  | Ok s => s
  | Raise _ => SNum []
  end.

(** Is the difference of a feature non-positive? *)
Definition triggered (df : DataFrame) (month_n : Z) (feature : string) : bool :=
  num_leb (difference month_n (column df "month") (column df feature)) num_zero.

(** The evaluator in closed form: the first absent feature column is
    reported; [month] is looked up only once there is a feature to look at,
    and then the bounds of the window are compared with it. *)
Definition evaluate (df : DataFrame) (month_n : Z) (feature_names : list string)
  : result (list string) :=
  match List.find (missing df) feature_names with
  | Some f => Raise (KeyError f)
  | None =>
      match feature_names with
      | [] => Ok []
      | _ :: _ =>
          let* months := getitem df "month" in
          let* _ := window_check month_n months in
          Ok (List.filter (triggered df month_n) (dedup feature_names))
      end
  end.

(** [s.iloc[p]] and [df.iloc[p]]: the rows taken in the order [p]. *)
Definition take_series (p : list nat) (s : Series) : Series :=
  match s with
  | SInt l => SInt (map (fun i => nth i l 0) p)
  | SNum l => SNum (map (fun i => nth i l num_nan) p)
  end.

Definition take_rows (p : list nat) (df : DataFrame) : DataFrame :=
  take_series p <$> df.

(** Every column of the table has [n] rows. *)
Definition has_rows (n : nat) (df : DataFrame) : Prop :=
  forall name s, df !! name = Some s -> nrows_of s = n.

End Pandas.

Arguments Series num : clear implicits.
Arguments scalar num : clear implicits.

Abbreviation DataFrame num := (gmap string (Series num)).

(** ** Python strings

    A [string] stands for a Python [str] whose code points are below 256. *)

(** [c.isspace()] for a code point below 256: tab to carriage return, the
    four separators 28 to 31, the space, NEL (133) and the no-break space
    (160). *)
Definition isspace (c : ascii) : bool :=
  let n := nat_of_ascii c in
  ((9 <=? n) && (n <=? 13) || (28 <=? n) && (n <=? 32)
   || (n =? 133) || (n =? 160))%nat.

Fixpoint lstrip (s : string) : string :=
  match s with
  | EmptyString => EmptyString
  | String c s' => if isspace c then lstrip s' else s
  end.

Fixpoint rstrip (s : string) : string :=
  match s with
  | EmptyString => EmptyString
  | String c s' =>
      match rstrip s' with
      | EmptyString => if isspace c then EmptyString else String c EmptyString
      | r => String c r
      end
  end.

(** [s.strip()] *)
Definition strip (s : string) : string := rstrip (lstrip s).

(** [s.split(sep)] for a one-character separator: never an empty list, the
    empty string splits into one empty token. *)
Fixpoint split (sep : ascii) (s : string) : list string :=
  match s with
  | EmptyString => [EmptyString]
  | String c s' =>
      if Ascii.eqb c sep then EmptyString :: split sep s'
      else match split sep s' with
           | [] => [String c EmptyString]
           | tok :: toks => String c tok :: toks
           end
  end.

(** ** Reference entries and the object store *)

(** A reference entry: a JSON object of which the program reads the keys
    [Features] (a string) and [Importance] (a number); either key may be
    absent.  A JSON number is held by its value. *)
Record entry : Type := {
  Features : option string;
  Importance : option Q;
  Extra : list (string * string)
}.

(** [entry.get("Features", "")] and [x.get("Importance", 0)] *)
Definition get_Features (e : entry) : string := default "" (Features e).
Definition get_Importance (e : entry) : Q := default (0 # 1)%Q (Importance e).

(** The trimmed tokens of an entry's feature string. *)
Definition tokens (e : entry) : list string :=
  map strip (split "," (get_Features e)).

(** Objects are shared by reference: a reference is a location of the
    store. *)
Definition loc : Type := nat.

Inductive object : Type :=
| ODict (e : entry)
| OList (items : list loc).

(** What [json.dump] is given, with the references resolved. *)
Inductive document : Type :=
| DocList (entries : list entry)
| DocMap (by_month : list (Z * list entry)).

(** What a run leaves outside the store, in order.  [EWrite path doc] is
    [with open(path, 'w') as f: json.dump(doc, f, indent=4)] carried out to
    its end, and [EPrint text] is a [print] that went through: the file
    system and the console are taken to accept what they are given. *)
Inductive event : Type :=
| EWrite (path : string) (doc : document)
| EPrint (text : string).

Record world : Type := {
  objects : gmap loc object;
  output : list event
}.

(** Programs that read and update the world and may raise. *)
Definition prog (A : Type) : Type := world -> result A * world.

Definition ret {A : Type} (a : A) : prog A := fun w => (Ok a, w).

Definition pbind {A B : Type} (c : prog A) (k : A -> prog B) : prog B :=
  fun w =>
    match c w with
    | (Ok a, w') => k a w'
    | (Raise e, w') => (Raise e, w')
    end.

Notation "'let!' x ':=' c 'in' k" := (pbind c (fun x => k))
  (at level 10, x name, c at level 100, k at level 200).

Definition lift {A : Type} (r : result A) : prog A := fun w => (r, w).

(** [[]]: a new, empty list object *)
Definition new_list (items : list loc) : prog loc :=
  fun w =>
    let l := fresh (dom (objects w)) in
    (Ok l, {| objects := <[l := OList items]> (objects w);
              output := output w |}).

(** The items of a list object, as iteration sees them. *)
Definition list_items (l : loc) : prog (list loc) :=
  fun w =>
    match objects w !! l with
    | Some (OList items) => (Ok items, w)
    | _ => (Raise TypeError, w)
    end.

(** [l.append(x)] *)
Definition list_append (l x : loc) : prog unit :=
  fun w =>
    match objects w !! l with
    | Some (OList items) =>
        (Ok tt, {| objects := <[l := OList (items ++ [x])]> (objects w);
                   output := output w |})
    | _ => (Raise TypeError, w)
    end.

(** Reading a dictionary object. *)
Definition read_dict (r : loc) : prog entry :=
  fun w =>
    match objects w !! r with
    | Some (ODict e) => (Ok e, w)
    | _ => (Raise TypeError, w)
    end.

(** A write or a print that goes through. *)
Definition emit (e : event) : prog unit :=
  fun w => (Ok tt, {| objects := objects w; output := output w ++ [e] |}).

(** A [for] loop over a list of values. *)
Fixpoint for_loop {A : Type} (l : list A) (body : A -> prog unit) : prog unit :=
  match l with
  | [] => ret tt
  | x :: l' => let! _ := body x in for_loop l' body
  end.

Fixpoint map_prog {A B : Type} (f : A -> prog B) (l : list A) : prog (list B) :=
  match l with
  | [] => ret []
  | x :: l' =>
      let! y := f x in
      let! ys := map_prog f l' in
      ret (y :: ys)
  end.

(** ** [filter_json_by_features] *)

Definition filter_json_by_features (data : loc) (features : list string)
  : prog loc :=
  let! filtered_data := new_list [] in
  let! items := list_items data in
  let! _ :=
    for_loop items
      (fun entry =>
         let! e := read_dict entry in
         let entry_features : gset string :=
           list_to_set (map strip (split "," (get_Features e))) in
         if existsb (fun feature => bool_decide (feature ∈ entry_features))
                    features
         then list_append filtered_data entry
         else ret tt) in
  ret filtered_data.

(** ** [sorted(..., key=..., reverse=True)]

    Python's sort is stable, also with [reverse=True]: the result is in
    descending key order and entries with equal keys keep their order. *)

Fixpoint insert_desc {A : Type} (x : Q * A) (l : list (Q * A)) : list (Q * A) :=
  match l with
  | [] => [x]
  | y :: l' =>
      if Qle_bool (fst y) (fst x) then x :: y :: l' else y :: insert_desc x l'
  end.

Definition sort_desc {A : Type} (l : list (Q * A)) : list (Q * A) :=
  fold_right insert_desc [] l.

(** [sorted(l, key=lambda x: x.get("Importance", 0), reverse=True)]: the key
    of every item is read first, the result is a new list. *)
Definition sorted_by_Importance (l : loc) : prog loc :=
  let! items := list_items l in
  let! keyed :=
    map_prog (fun x => let! e := read_dict x in ret (get_Importance e, x))
             items in
  new_list (map snd (sort_desc keyed)).

(** [json.dump] of a list of entries: the entries behind the references. *)
Definition dump_list (l : loc) : prog (list entry) :=
  let! items := list_items l in
  map_prog read_dict items.

(** ** [ReACT_Extractor] *)

Definition feature_list : list string :=
  [ "s_avg_clustering_coef";
    "t_num_dev_nodes";
    "t_num_dev_per_file";
    "t_graph_density";
    "st_num_dev";
    "t_net_overlap" ].

Definition output_path : string := "output/extracted_react.json".

Section Extractor.
Context {num : Type} `{Numeric num}.

Definition ReACT_Extractor (original_data : loc) (feature_data : DataFrame num)
    (month_n : Z) (write_output : bool) : prog loc :=
  let! processed_features :=
    lift (calculate_feature_differences feature_data month_n feature_list) in
  let! filtered_json :=
    filter_json_by_features original_data processed_features in
  let! sorted_json := sorted_by_Importance filtered_json in
  let! _ :=
    (if write_output then
       let! doc := dump_list sorted_json in
       let! _ := emit (EWrite output_path (DocList doc)) in
       emit (EPrint "ReACTs saved in `extracted_react.json` file.")
     else ret tt) in
  ret sorted_json.

(** *** The [--all] branch of [main] *)

(** Equality of float64 values as pandas' [unique] sees it: NaN is equal to
    NaN. *)
Definition num_same (x y : num) : bool :=
  num_isnan x && num_isnan y || num_eqb x y.

(** [sorted(s.unique())] *)
Definition unique_sorted (s : Series num) : list (scalar num) :=
  match s with
  | SInt l => map IntScalar (sorted_asc Z.ltb (unique_by Z.eqb l))
  | SNum l => map NumScalar (sorted_asc num_ltb (unique_by num_same l))
  end.

(** [int(m)] *)
Definition py_int (m : scalar num) : result Z :=
  match m with
  | IntScalar z => Ok z
  | NumScalar x =>
      match num_to_Z x with
      | Some z => Ok z
      | None => Raise (if num_isnan x then ValueError else OverflowError)
      end
  end.

(** A [for] loop that threads a local variable through its body. *)
Fixpoint fold_prog {A S : Type} (l : list A) (body : A -> S -> prog S) (s : S)
  : prog S :=
  match l with
  | [] => ret s
  | x :: l' => let! s' := body x s in fold_prog l' body s'
  end.

(** The loop of the branch: the mapping from month to that month's result. *)
Definition all_months_results (original_data : loc) (feature_data : DataFrame num)
  : prog (dict Z loc) :=
  let! months := lift (getitem feature_data "month") in
  let all_months := unique_sorted months in
  fold_prog all_months
    (fun m all_results =>
       let! month_n := lift (py_int m) in
       let! result_for_month :=
         ReACT_Extractor original_data feature_data month_n false in
       let! key := lift (py_int m) in
       ret (dict_set all_results key result_for_month))
    [].

(** [json.dump] of the mapping. *)
Definition dump_map (all_results : dict Z loc) : prog (list (Z * list entry)) :=
  map_prog (fun item => let! es := dump_list (snd item) in ret (fst item, es))
           (dict_items all_results).

Definition main_all (original_data : loc) (feature_data : DataFrame num)
  : prog (dict Z loc) :=
  let! all_results := all_months_results original_data feature_data in
  let! doc := dump_map all_results in
  let! _ := emit (EWrite output_path (DocMap doc)) in
  let! _ :=
    emit (EPrint "ReACTs for ALL months saved in `extracted_react.json` file.") in
  ret all_results.

(** *** The single-month branch of [main]

    [ReACT_Extractor] is called with its default [write_output=True]; the
    value returned here is the document that [print(json.dumps(reacts))]
    shows. *)
Definition main_single (original_data : loc) (feature_data : DataFrame num)
    (month : Z) : prog (list entry) :=
  let! reacts := ReACT_Extractor original_data feature_data month true in
  dump_list reacts.

End Extractor.

(** * The vocabulary of the claims *)

Section TableVocabulary.
Context {num : Type} `{Numeric num}.



(** Two columns of the same type with the same cells in some order. *)
Definition series_perm (s s' : Series num) : Prop :=
  match s, s' with
  | SInt l, SInt l' => Permutation l l'
  | SNum l, SNum l' => Permutation l l'
  | _, _ => False
  end.

(** The features the evaluator returns for a month on a table that has the
    columns. *)
Definition features_for (df : DataFrame num) (z : Z) : list string :=
  List.filter (triggered df z) (dedup feature_list).

(** The table with [k] added to every cell of an integer [month] column. *)
Definition shift_months (k : Z) (df : DataFrame num) : DataFrame num :=
  alter (fun s => match s with
                  | SInt l => SInt (map (fun z => z + k) l)
                  | SNum l => SNum l
                  end) "month" df.

(** The column has no cell to average: no row, or NaN in every row. *)
Definition no_valid_cell (s : Series num) : Prop :=
  match s with
  | SInt l => l = []
  | SNum l => count_valid l = 0%nat
  end.

End TableVocabulary.

(** ** Sums

    [adds_up l x]: [x] is the result of adding the cells of [l], each once,
    in some order and some grouping. *)

Section SumVocabulary.
Context {num : Type} `{Numeric num}.

Inductive adds_up : list num -> num -> Prop :=
| adds_one (x : num) : adds_up [x] x
| adds_plus (l1 l2 : list num) (x1 x2 : num) :
    adds_up l1 x1 -> adds_up l2 x2 -> adds_up (l1 ++ l2) (num_add x1 x2)
| adds_perm (l l' : list num) (x : num) :
    Permutation l l' -> adds_up l x -> adds_up l' x.

(** The cells each running total has taken after a round. *)
Fixpoint lanes_push (Ls : list (list num)) (l : list num) : list (list num) :=
  match Ls, l with
  | L :: Ls', y :: l' => (L ++ [y]) :: lanes_push Ls' l'
  | _, _ => Ls
  end.

End SumVocabulary.

Section IntVocabulary.
Context {num : Type} `{Numeric num}.

(** The sum of the absolute values of integer cells. *)
Definition sum_abs (l : list Z) : Z := fold_right (fun z a => Z.abs z + a) 0 l.

(** The float64 cell [x] holds the integer [z]; a NaN cell holds no value,
    and pandas takes zero for it. *)
Definition cell_holds (x : num) (z : Z) : Prop :=
  x = num_of_Z z \/ (num_isnan x = true /\ z = 0).

(** The cells of the column are integers whose absolute values add up to
    less than [2 ^ 53]: no sum of cells of the column is rounded. *)
Definition small_integers (s : Series num) : Prop :=
  match s with
  | SInt l => sum_abs l < 2 ^ 53
  | SNum l => exists zs, Forall2 cell_holds l zs /\ sum_abs zs < 2 ^ 53
  end.

End IntVocabulary.

(** A dictionary that maps every key [k] of [ks] to [h k]. *)
Definition tabulate {V : Type} (h : string -> V) (ks : list string)
  : dict string V :=
  map (fun k => (k, h k)) ks.

(** The keys of a dictionary after an assignment to [k]. *)
Fixpoint add_key (ks : list string) (k : string) : list string :=
  match ks with
  | [] => [k]
  | k' :: ks' => if decide (k' = k) then ks else k' :: add_key ks' k
  end.

Definition inb (ks : list string) (k : string) : bool :=
  existsb (fun k' => bool_decide (k' = k)) ks.

(** Does the character [c] occur in [s]? *)
Fixpoint contains (c : ascii) (s : string) : bool :=
  match s with
  | EmptyString => false
  | String c' s' => Ascii.eqb c' c || contains c s'
  end.

(** [s] is empty or begins with a character that is not whitespace. *)
Definition starts_clean (s : string) : Prop :=
  match s with
  | EmptyString => True
  | String c _ => isspace c = false
  end.

(** The months of an integer [month] column, distinct and ascending. *)
Definition months_of (ms : list Z) : list Z :=
  sorted_asc Z.ltb (unique_by Z.eqb ms).

(** ** Entries and the store *)

(** A valid reference to a dictionary. *)
Definition is_dict (w : world) (r : loc) : Prop :=
  exists e, objects w !! r = Some (ODict e).

(** A list object whose items are dictionaries: what [json.load] returns for
    an array of objects. *)
Definition is_entry_list (w : world) (data : loc) (items : list loc) : Prop :=
  objects w !! data = Some (OList items) /\ Forall (is_dict w) items.

Definition no_entry : entry :=
  {| Features := None; Importance := None; Extra := [] |}.

(** The entry behind a reference. *)
Definition entry_at (w : world) (r : loc) : entry :=
  match objects w !! r with
  | Some (ODict e) => e
  | _ => no_entry
  end.

(** The test of the loop of [filter_json_by_features]. *)
Definition selected (features : list string) (e : entry) : bool :=
  existsb (fun feature =>
             bool_decide (feature ∈ (list_to_set (tokens e) : gset string)))
          features.

(** The entries the selector keeps, in their order. *)
Definition kept (w : world) (features : list string) (items : list loc)
  : list loc :=
  List.filter (fun r => selected features (entry_at w r)) items.

(** The tokens of an entry as the specification words them: no token at all
    when the key is absent. *)
Definition tokens_as_specified (e : entry) : list string :=
  match Features e with
  | None => []
  | Some s => map strip (split "," s)
  end.

Definition importance_at (w : world) (r : loc) : Q :=
  get_Importance (entry_at w r).

(** References paired with their sort keys. *)
Definition keyed (w : world) (items : list loc) : list (Q * loc) :=
  map (fun r => (importance_at w r, r)) items.

(** The references in the order [sorted] returns them. *)
Definition ranked (w : world) (items : list loc) : list loc :=
  map snd (sort_desc (map (fun r => (importance_at w r, r)) items)).

(** [a] may stand before [b]: the key of [b] is not larger. *)
Definition key_ge {A : Type} (a b : Q * A) : Prop := (fst b <= fst a)%Q.

(** [a] stands before [b] in [l]. *)
Definition before {A : Type} (a b : A) (l : list A) : Prop :=
  exists l1 l2 l3, l = l1 ++ a :: l2 ++ b :: l3.

(** The world with one more list object. *)
Definition with_list (w : world) (l : loc) (items : list loc) : world :=
  {| objects := <[l := OList items]> (objects w); output := output w |}.

(** The location of the next new object. *)
Definition next_loc (w : world) : loc := fresh (dom (objects w)).

(** Every object of [w] is still there, unchanged, in [w']. *)
Definition extends (w w' : world) : Prop :=
  forall r o, objects w !! r = Some o -> objects w' !! r = Some o.

(** Every run of [c] keeps the objects it finds. *)
Definition frame {A : Type} (c : prog A) : Prop :=
  forall w r w', c w = (r, w') -> extends w w'.

(** Every run of [c] changes no object but the one at [l]. *)
Definition touches (l : loc) {A : Type} (c : prog A) : Prop :=
  forall w r w', c w = (r, w') ->
  forall x, x <> l -> objects w' !! x = objects w !! x.

(** Every run of [c] leaves the output as it found it. *)
Definition silent {A : Type} (c : prog A) : Prop :=
  forall w r w', c w = (r, w') -> output w' = output w.

(** ** The pipeline *)

Definition saved_message : string :=
  "ReACTs saved in `extracted_react.json` file.".

Definition all_saved_message : string :=
  "ReACTs for ALL months saved in `extracted_react.json` file.".

(** The world after a run of the pipeline that selects with [features]. *)
Definition after_pipeline (w : world) (items : list loc)
    (features : list string) (write_output : bool) : world :=
  let w1 := with_list w (next_loc w) (kept w features items) in
  let res := ranked w (kept w features items) in
  {| objects := objects (with_list w1 (next_loc w1) res);
     output :=
       output w ++
       (if write_output
        then [EWrite output_path (DocList (map (entry_at w) res));
              EPrint saved_message]
        else []) |}.

Section MonthVocabulary.
Context {num : Type} `{Numeric num}.

(** The references the single-month pipeline returns for a month. *)
Definition month_result (w : world) (items : list loc) (df : DataFrame num)
    (z : Z) : list loc :=
  ranked w (kept w (features_for df z) items).

(** Every month of the mapping [d] points to that month's result. *)
Definition results_in (w : world) (items : list loc) (df : DataFrame num)
    (wi : world) (d : dict Z loc) : Prop :=
  Forall (fun item =>
            objects wi !! snd item
            = Some (OList (month_result w items df (fst item)))) d.

End MonthVocabulary.

(** * Example inputs *)

(** The table of the specification's example: one row, month 9, density 5. *)
Definition example_table : DataFrame float :=
  list_to_map [("month", SInt [9]); ("t_graph_density", SNum [5%float])].


(** The same columns over three months, with one falling feature. *)
Definition falling_table : DataFrame float :=
  list_to_map
    [("month", SInt [8; 1; 9; 1]);
     ("s_avg_clustering_coef", SNum [1; 1; 1; 1]%float);
     ("t_num_dev_nodes", SInt [4; 4; 4; 4]);
     ("t_num_dev_per_file", SNum [2; 2; 2; 2]%float);
     ("t_graph_density", SNum [1; 9; 1; 9]%float);
     ("st_num_dev", SInt [1; 1; 1; 1]);
     ("t_net_overlap", SNum [1; 1; 1; 1]%float)].

#[local] Set Warnings "-inexact-float".

(** Four rows whose densities are the binary64 numbers nearest to 0.1, 0.2,
    0.3 and 1.8. *)
Definition rounding_table : DataFrame float :=
  list_to_map
    [("month", SInt [7; 8; 9; 1]);
     ("t_graph_density", SNum [0.1; 0.2; 0.3; 1.8]%float)].

#[local] Set Warnings "+inexact-float".

(** A store with four reference entries and the list that holds them. *)
Definition entry_a : entry :=
  {| Features := Some "t_graph_density, st_num_dev";
     Importance := Some (3 # 1)%Q; Extra := [("id", "a")] |}.

Definition entry_b : entry :=
  {| Features := Some "t_net_overlap";
     Importance := Some (5 # 1)%Q; Extra := [("id", "b")] |}.

Definition entry_c : entry :=
  {| Features := None; Importance := Some (4 # 1)%Q; Extra := [("id", "c")] |}.

Definition entry_d : entry :=
  {| Features := Some "x , t_graph_density "; Importance := None;
     Extra := [("id", "d")] |}.

Definition example_world : world :=
  {| objects :=
       list_to_map
         [(0%nat, ODict entry_a); (1%nat, ODict entry_b);
          (2%nat, ODict entry_c); (3%nat, ODict entry_d);
          (4%nat, OList [0; 1; 2; 3]%nat)];
     output := [] |}.

(** The example table with one more column. *)
Definition example_table_wide : DataFrame float :=
  list_to_map
    [("t_graph_density", SNum [5%float]); ("notes", SInt [0]);
     ("month", SInt [9])].

(** A table whose density column holds NaN in every row. *)
Definition nan_table : DataFrame float :=
  list_to_map
    [("month", SInt [9; 9]);
     ("t_graph_density", SNum [PrimFloat.nan; PrimFloat.nan])].

(** A table without rows and without feature columns. *)
Definition empty_table : DataFrame float := {["month" := SInt []]}.

(** The store of [example_world] with its list in descending order of
    importance. *)
Definition ranked_world : world :=
  {| objects :=
       list_to_map
         [(0%nat, ODict entry_a); (1%nat, ODict entry_b);
          (2%nat, ODict entry_c); (3%nat, ODict entry_d);
          (4%nat, OList [1; 2; 0; 3]%nat)];
     output := [] |}.

(** * Facts about the evaluator *)

Section EvaluatorFacts.
Context {num : Type} `{Numeric num}.

Lemma bind_Ok {A B : Type} (a : A) (k : A -> result B) : bind (Ok a) k = k a.
Proof. reflexivity. Qed.

Lemma getitem_KeyError (df : DataFrame num) f e :
  getitem df f = Raise e -> e = KeyError f.
Proof. unfold getitem. destruct (df !! f); congruence. Qed.

Lemma missing_false (df : DataFrame num) f :
  missing df f = false <-> has_column df f.
Proof.
  unfold missing, has_column. destruct (getitem df f) as [s|e].
  - split; eauto.
  - split; [discriminate | intros [s Hs]; discriminate].
Qed.

Lemma getitem_column (df : DataFrame num) f :
  missing df f = false -> getitem df f = Ok (column df f).
Proof.
  unfold missing, column. destruct (getitem df f); [reflexivity | discriminate].
Qed.

Lemma getitem_missing (df : DataFrame num) f :
  missing df f = true -> getitem df f = Raise (KeyError f).
Proof.
  unfold missing. destruct (getitem df f) as [s|e] eqn:E; [discriminate|].
  intros _. f_equal. eapply getitem_KeyError; eauto.
Qed.

Lemma getitem_mask_col (df : DataFrame num) mask f :
  getitem (getitem_mask df mask) f =
  match getitem df f with
  | Ok s => Ok (series_select mask s)
  | Raise e => Raise e
  end.
Proof.
  unfold getitem, getitem_mask. rewrite lookup_fmap.
  now destruct (df !! f).
Qed.

Lemma mask_and_map {A : Type} (f g : A -> bool) (l : list A) :
  mask_and (map f l) (map g l) = map (fun x => f x && g x) l.
Proof.
  unfold mask_and. induction l as [|x l IH]; simpl; [reflexivity|].
  f_equal. exact IH.
Qed.

(** When the bounds of the window can be compared with the [month] column,
    the two comparisons give the window. *)
Lemma window_check_Ok m (months : Series num) :
  window_check m months = Ok tt ->
  exists lo hi,
    series_ge months (m - 2) = Ok lo /\ series_le months m = Ok hi /\
    mask_and lo hi = in_window m months.
Proof.
  unfold window_check. destruct months as [l|l]; simpl.
  - intros _. eexists _, _. split; [reflexivity|]. split; [reflexivity|].
    apply mask_and_map.
  - unfold float_of_int.
    destruct (num_isinf (num_of_Z (m - 2))); [discriminate|].
    destruct (num_isinf (num_of_Z m)); [discriminate|]. simpl.
    intros _. eexists _, _. split; [reflexivity|]. split; [reflexivity|].
    apply mask_and_map.
Qed.

Lemma window_check_Raise m (months : Series num) e :
  window_check m months = Raise e ->
  e = OverflowError /\
  (series_ge months (m - 2) = Raise e \/
   exists lo, series_ge months (m - 2) = Ok lo /\
              series_le months m = Raise e).
Proof.
  unfold window_check. destruct months as [l|l]; simpl; [discriminate|].
  unfold float_of_int.
  destruct (num_isinf (num_of_Z (m - 2))); simpl.
  - intros [= <-]. auto.
  - destruct (num_isinf (num_of_Z m)); simpl; [|discriminate].
    intros [= <-]. split; [reflexivity|]. right. eauto.
Qed.

Lemma window_check_unit m (months : Series num) (u : unit) :
  window_check m months = Ok u -> window_check m months = Ok tt.
Proof. now destruct u. Qed.

(** An int64 [month] column is compared exactly, whatever the bounds. *)
Lemma window_check_SInt m (l : list Z) : window_check m (SInt l) = Ok tt.
Proof. reflexivity. Qed.

End EvaluatorFacts.

(** *** Dictionaries filled by a loop over a list of keys *)

Section DictFacts.
Context {V : Type}.

Lemma inb_In ks k : inb ks k = true <-> In k ks.
Proof.
  unfold inb. rewrite existsb_exists. split.
  - intros [x [Hx Heq]]. apply bool_decide_eq_true in Heq. congruence.
  - intros Hin. exists k. split; [assumption | now apply bool_decide_eq_true].
Qed.

Lemma dict_set_tabulate (h : string -> V) ks k :
  dict_set (tabulate h ks) k (h k) = tabulate h (add_key ks k).
Proof.
  induction ks as [|k' ks IH]; simpl; [reflexivity|].
  destruct (decide (k' = k)) as [->|Hne]; simpl; [reflexivity|].
  now rewrite IH.
Qed.

Lemma dict_get_tabulate (h : string -> V) ks k :
  In k ks -> dict_get (tabulate h ks) k = Some (h k).
Proof.
  induction ks as [|k' ks IH]; simpl; [tauto|].
  intros [->|Hin].
  - now rewrite decide_True.
  - destruct (decide (k' = k)) as [->|Hne]; [reflexivity | now apply IH].
Qed.

Lemma add_key_spec ks k :
  add_key ks k = if inb ks k then ks else ks ++ [k].
Proof.
  induction ks as [|k' ks IH]; simpl; [reflexivity|].
  destruct (decide (k' = k)) as [->|Hne].
  - now rewrite bool_decide_eq_true_2.
  - rewrite bool_decide_eq_false_2 by assumption. simpl.
    rewrite IH. fold (inb ks k). now destruct (inb ks k).
Qed.

Lemma In_add_key ks k x : In x (add_key ks k) <-> In x ks \/ x = k.
Proof.
  rewrite add_key_spec. destruct (inb ks k) eqn:E.
  - apply inb_In in E. split; [tauto | intros [?| ->]; assumption].
  - rewrite in_app_iff. simpl. intuition.
Qed.

Lemma fold_add_key l ks :
  fold_left add_key l ks
  = ks ++ List.filter (fun y => negb (inb ks y)) (unique_by (fun x y => bool_decide (x = y)) l).
Proof.
  revert ks. induction l as [|x l IH]; intros ks; simpl.
  - now rewrite app_nil_r.
  - rewrite IH, add_key_spec.
    set (L := unique_by _ l).
    destruct (inb ks x) eqn:E; simpl.
    + f_equal. clear IH. induction L as [|y L IHL]; simpl; [reflexivity|].
      destruct (inb ks y) eqn:Ey; simpl.
      * destruct (negb (bool_decide (x = y))); simpl; [now rewrite Ey|]; assumption.
      * rewrite bool_decide_eq_false_2; simpl.
        -- rewrite Ey. simpl. now f_equal.
        -- intros ->. congruence.
    + rewrite <- app_assoc. simpl. do 2 f_equal. clear IH.
      induction L as [|y L IHL]; simpl; [reflexivity|].
      unfold inb at 1. rewrite existsb_app. fold (inb ks y). simpl.
      rewrite orb_false_r. rewrite negb_orb.
      destruct (bool_decide (x = y)); simpl.
      * now rewrite andb_false_r.
      * rewrite andb_true_r. destruct (inb ks y); simpl; [assumption | now f_equal].
Qed.

Lemma fold_add_key_nil l : fold_left add_key l [] = dedup l.
Proof.
  rewrite fold_add_key. simpl. unfold dedup.
  induction (unique_by _ l) as [|y L IHL]; simpl; [reflexivity | now f_equal].
Qed.

Lemma In_dedup l x : In x (dedup l) <-> In x l.
Proof.
  rewrite <- fold_add_key_nil.
  assert (G : forall ks, In x (fold_left add_key l ks) <-> In x ks \/ In x l).
  { induction l as [|y l IH]; intros ks; simpl; [tauto|].
    rewrite IH, In_add_key. intuition. }
  rewrite G. simpl. tauto.
Qed.

Lemma for_each_dict (bad : string -> bool) (err : string -> exn)
    (h : string -> V) (l0 : list string)
    (body : string -> dict string V -> result (dict string V)) :
  (forall f d, In f l0 -> bad f = true -> body f d = Raise (err f)) ->
  (forall f d, In f l0 -> bad f = false -> body f d = Ok (dict_set d f (h f))) ->
  forall l ks, incl l l0 ->
    for_each l body (tabulate h ks) =
    match List.find bad l with
    | Some f => Raise (err f)
    | None => Ok (tabulate h (fold_left add_key l ks))
    end.
Proof.
  intros Hbad Hgood. induction l as [|x l IH]; intros ks Hincl; simpl.
  - reflexivity.
  - assert (Hx : In x l0) by (apply Hincl; now left).
    destruct (bad x) eqn:E.
    + now rewrite Hbad.
    + rewrite Hgood by assumption. rewrite dict_set_tabulate.
      apply IH. intros y Hy. apply Hincl. now right.
Qed.

End DictFacts.

Section EvaluatorEquation.
Context {num : Type} `{Numeric num}.

Lemma find_const_false {A : Type} (l : list A) :
  List.find (fun _ => false) l = None.
Proof. induction l; simpl; auto. Qed.

Lemma filter_tabulate {V : Type} (h : string -> V) (p : V -> bool) ks :
  map fst (List.filter (fun item => p (snd item)) (tabulate h ks))
  = List.filter (fun k => p (h k)) ks.
Proof.
  induction ks as [|k ks IH]; simpl; [reflexivity|].
  destruct (p (h k)); simpl; now rewrite IH.
Qed.

Lemma find_missing_none (df : DataFrame num) fl :
  List.find (missing df) fl = None ->
  forall f, In f fl -> missing df f = false.
Proof. intros Hnone f Hin. eapply find_none in Hnone; eauto. Qed.

(** The function computes what its closed form says, errors included. *)
Lemma calculate_feature_differences_eq (df : DataFrame num) month_n fl :
  calculate_feature_differences df month_n fl = evaluate df month_n fl.
Proof.
  unfold calculate_feature_differences, evaluate.
  set (h1 := fun f => series_mean (column df f)).
  set (h2 := fun f => series_sum (window_of month_n (column df "month") (column df f))).
  set (h3 := fun f => num_sub (to_num (h2 f)) (h1 f)).
  change (@nil (string * num)) with (tabulate h1 []) at 1.
  rewrite (for_each_dict (missing df) KeyError h1 fl) with (l := fl) (ks := []).
  2:{ intros f d _ Hbad. now rewrite (getitem_missing _ _ Hbad). }
  2:{ intros f d _ Hgood. now rewrite (getitem_column _ _ Hgood). }
  2:{ apply incl_refl. }
  destruct (List.find (missing df) fl) as [f|] eqn:Efind; [reflexivity|].
  pose proof (find_missing_none _ _ Efind) as Hall.
  rewrite bind_Ok.
  destruct fl as [|f0 fl']; [reflexivity|].
  set (fl := f0 :: fl') in *.
  destruct (missing df "month") eqn:Emonth.
  - unfold fl at 1. cbn [for_each].
    now rewrite !(getitem_missing _ _ Emonth).
  - rewrite (getitem_column _ _ Emonth), bind_Ok.
    destruct (window_check month_n (column df "month")) as [u|e] eqn:Ew.
    2:{ apply window_check_Raise in Ew.
        destruct Ew as [-> [Hlo|[lo [Hlo Hhi]]]];
          unfold fl at 1; cbn [for_each]; rewrite !bind_Ok, Hlo;
          [reflexivity|].
        rewrite !bind_Ok, Hhi. reflexivity. }
    apply window_check_unit, window_check_Ok in Ew.
    destruct Ew as [lo [hi [Hlo [Hhi Hmask]]]].
    rewrite bind_Ok.
    change (@nil (string * scalar num)) with (tabulate h2 []).
    rewrite (for_each_dict (fun _ => false) KeyError h2 fl) with (l := fl) (ks := []).
    2:{ discriminate. }
    2:{ intros f d Hin _. rewrite !bind_Ok.
        rewrite Hlo, !bind_Ok, Hhi, bind_Ok, Hmask, getitem_mask_col.
        rewrite (getitem_column _ _ (Hall f Hin)). reflexivity. }
    2:{ apply incl_refl. }
    rewrite find_const_false, bind_Ok.
    change (@nil (string * num)) with (tabulate h3 []).
    rewrite (for_each_dict (fun _ => false) KeyError h3 fl) with (l := fl) (ks := []).
    2:{ discriminate. }
    2:{ intros f d Hin _. unfold dict_getitem.
        assert (Hk : In f (fold_left add_key fl [])).
        { rewrite fold_add_key_nil. now apply In_dedup. }
        rewrite !dict_get_tabulate by assumption. reflexivity. }
    2:{ apply incl_refl. }
    rewrite find_const_false, bind_Ok. unfold dict_items.
    rewrite (filter_tabulate h3 (fun d => num_leb d num_zero)).
    rewrite fold_add_key_nil. reflexivity.
Qed.

End EvaluatorEquation.

(** *** Binary64 satisfies the order facts *)

#[global] Instance F64_order : NumericOrder float.
Proof.
  split.
  - intros d. simpl. rewrite ltb_spec, leb_spec.
    unfold SFltb, SFleb. change (Prim2SF PrimFloat.zero) with (S754_zero false).
    destruct (Prim2SF d) as [s|s| |s m e]; simpl; try discriminate;
      destruct s; simpl; congruence.
  - intros m. simpl. rewrite !leb_spec, sub_spec.
    change (Prim2SF PrimFloat.zero) with (S754_zero false).
    unfold SFleb.
    destruct (Prim2SF m) as [s|s| |s x e]; simpl; try discriminate;
      destruct s; simpl; congruence.
  - reflexivity.
Qed.

(** *** Binary64 adds small integers without rounding

    From the specification of binary64 addition: the two operands are
    aligned on the smaller exponent, added as integers, and the sum is
    rounded to 53 bits; an integer below [2 ^ 53] has at most 53 bits, so it
    is returned as it is. *)

Lemma digits2_bounds (p : positive) :
  2 ^ (Zpos (digits2_pos p) - 1) <= Zpos p < 2 ^ Zpos (digits2_pos p).
Proof.
  induction p as [p IH|p IH|]; cbn [digits2_pos].
  - rewrite Pos2Z.inj_succ.
    replace (Z.succ (Zpos (digits2_pos p)) - 1) with (Z.succ (Zpos (digits2_pos p) - 1)) by lia.
    rewrite !Z.pow_succ_r by lia. lia.
  - rewrite Pos2Z.inj_succ.
    replace (Z.succ (Zpos (digits2_pos p)) - 1) with (Z.succ (Zpos (digits2_pos p) - 1)) by lia.
    rewrite !Z.pow_succ_r by lia. lia.
  - simpl. lia.
Qed.

Lemma iter_xO_val (n q : positive) : Zpos (Pos.iter xO q n) = Zpos q * 2 ^ Zpos n.
Proof.
  induction n as [|n IH] using Pos.peano_ind.
  - simpl. lia.
  - rewrite Pos.iter_succ, Pos2Z.inj_xO, IH, Pos2Z.inj_succ, Z.pow_succ_r by lia. lia.
Qed.

Lemma iter_xO_digits (n q : positive) :
  digits2_pos (Pos.iter xO q n) = (digits2_pos q + n)%positive.
Proof.
  induction n as [|n IH] using Pos.peano_ind.
  - simpl. lia.
  - rewrite Pos.iter_succ. cbn [digits2_pos]. rewrite IH. lia.
Qed.

Lemma iter_pos_iter {A : Type} (f : A -> A) (n : positive) (x : A) :
  SpecFloat.iter_pos f n x = Pos.iter f x n.
Proof.
  revert x. induction n as [n IH|n IH|]; intros x; simpl.
  - rewrite !IH. rewrite <- Pos.iter_swap. f_equal. now rewrite Pos.iter_swap.
  - now rewrite !IH.
  - reflexivity.
Qed.

Lemma shr_exact (n q : positive) :
  SpecFloat.iter_pos shr_1 n {| shr_m := Zpos (Pos.iter xO q n); shr_r := false; shr_s := false |}
  = {| shr_m := Zpos q; shr_r := false; shr_s := false |}.
Proof.
  rewrite iter_pos_iter.
  induction n as [|n IH] using Pos.peano_ind.
  - reflexivity.
  - rewrite (Pos.iter_succ n _ xO), Pos.iter_succ, <- Pos.iter_swap. simpl. exact IH.
Qed.

(** A mantissa of at most 53 digits is aligned to 53 digits, exactly. *)
Lemma binary_round_short (s : bool) (q : positive) (e : Z) :
  let d := Zpos (digits2_pos q) in
  d <= 53 ->
  -1074 <= d + e - 53 <= 971 ->
  exists m,
    binary_round prec emax s q e = S754_finite s m (d + e - 53) /\
    Zpos m = Zpos q * 2 ^ (53 - d) /\
    digits2_pos m = 53%positive.
Proof.
  intros d Hd Hf.
  assert (Hfexp : fexp prec emax (d + e) = d + e - 53).
  { unfold fexp, emin, prec, emax. lia. }
  unfold binary_round. fold d. rewrite Hfexp.
  unfold shl_align.
  destruct (d + e - 53 - e) as [|n|n] eqn:En; [| lia |].
  - (* no shift: the mantissa has 53 digits *)
    assert (Hd53 : digits2_pos q = 53%positive) by (unfold d in *; lia).
    exists q. split; [|split; [|assumption]].
    + unfold binary_round_aux, shr_fexp, Zdigits2. rewrite Hd53.
      assert (Hfe : fexp prec emax (53 + e) - e = 0).
      { unfold fexp, emin, prec, emax. lia. }
      rewrite Hfe. cbn [shr shr_record_of_loc shr_m loc_of_shr_record round_nearest_even Zdigits2].
      rewrite Hd53, Hfe. cbn [shr shr_record_of_loc shr_m].
      replace (d + e - 53) with e by lia.
      assert (Hle : (e <=? emax - prec)%Z = true) by (apply Z.leb_le; unfold emax, prec; lia).
      now rewrite Hle.
    + replace (53 - d) with 0 by lia. lia.
  - (* shift to the left by [n] *)
    set (m := Pos.iter xO q n).
    assert (Hdm : digits2_pos m = 53%positive).
    { unfold m. rewrite iter_xO_digits. unfold d in *. lia. }
    exists m. split; [|split; [|assumption]].
    + unfold binary_round_aux, shr_fexp, Zdigits2. rewrite Hdm.
      assert (Hfe : fexp prec emax (53 + (d + e - 53)) - (d + e - 53) = 0).
      { unfold fexp, emin, prec, emax. lia. }
      rewrite Hfe. cbn [shr shr_record_of_loc shr_m loc_of_shr_record round_nearest_even Zdigits2].
      rewrite Hdm, Hfe. cbn [shr shr_record_of_loc shr_m].
      assert (Hle : (d + e - 53 <=? emax - prec)%Z = true) by (apply Z.leb_le; unfold emax, prec; lia).
      now rewrite Hle.
    + unfold m. rewrite iter_xO_val. f_equal. f_equal. lia.
Qed.

(** A longer mantissa whose low bits are zero is shifted right, exactly. *)
Lemma binary_round_long (s : bool) (q q0 : positive) (e : Z) (n : positive) :
  digits2_pos q0 = 53%positive ->
  Zpos q = Zpos q0 * 2 ^ Zpos n ->
  -1074 <= e + Zpos n <= 971 ->
  binary_round prec emax s q e = S754_finite s q0 (e + Zpos n).
Proof.
  intros Hd0 Hq Hf.
  assert (Eq : q = Pos.iter xO q0 n).
  { apply Pos2Z.inj. now rewrite iter_xO_val. }
  subst q. clear Hq.
  unfold binary_round. rewrite iter_xO_digits, Hd0.
  assert (Hfexp : fexp prec emax (Zpos (53 + n) + e) = e + Zpos n).
  { unfold fexp, emin, prec, emax. lia. }
  rewrite Hfexp. unfold shl_align.
  replace (e + Zpos n - e) with (Zpos n) by lia.
  unfold binary_round_aux, shr_fexp, Zdigits2.
  rewrite iter_xO_digits, Hd0, Hfexp.
  replace (e + Zpos n - e) with (Zpos n) by lia.
  cbn [shr shr_record_of_loc]. rewrite shr_exact.
  cbn [shr_m loc_of_shr_record round_nearest_even Zdigits2].
  rewrite Hd0.
  assert (Hfe : fexp prec emax (53 + (e + Zpos n)) - (e + Zpos n) = 0).
  { unfold fexp, emin, prec, emax. lia. }
  rewrite Hfe. cbn [shr shr_record_of_loc shr_m].
  assert (Hle : (e + Zpos n <=? emax - prec)%Z = true) by (apply Z.leb_le; unfold emax, prec; lia).
  now rewrite Hle.
Qed.

Lemma digits2_small (p : positive) :
  Zpos p < 2 ^ 53 -> Zpos (digits2_pos p) <= 53.
Proof.
  intros Hp. pose proof (digits2_bounds p) as [Hlo _].
  destruct (Z.le_gt_cases (Zpos (digits2_pos p)) 53) as [H|H]; [assumption|].
  exfalso.
  assert (2 ^ 53 <= 2 ^ (Zpos (digits2_pos p) - 1)) by (apply Z.pow_le_mono_r; lia).
  lia.
Qed.

(** The binary64 number of a non-zero integer below [2 ^ 53]. *)
Lemma normalize_int (z : Z) :
  z <> 0 -> Z.abs z < 2 ^ 53 ->
  exists m d,
    binary_normalize prec emax z 0 false = S754_finite (z <? 0)%Z m (d - 53) /\
    Zpos m = Z.abs z * 2 ^ (53 - d) /\
    1 <= d <= 53 /\
    digits2_pos m = 53%positive.
Proof.
  intros Hz Hlt.
  destruct z as [|p|p]; [congruence| |].
  - pose proof (digits2_small p Hlt) as Hd.
    destruct (binary_round_short false p 0 Hd) as [m [Hm [Hv Hdm]]]; [lia|].
    exists m, (Zpos (digits2_pos p)).
    cbn [binary_normalize]. rewrite Hm.
    split; [f_equal; lia|]. split; [exact Hv|]. split; [lia | exact Hdm].
  - pose proof (digits2_small p Hlt) as Hd.
    destruct (binary_round_short true p 0 Hd) as [m [Hm [Hv Hdm]]]; [lia|].
    exists m, (Zpos (digits2_pos p)).
    cbn [binary_normalize]. rewrite Hm.
    split; [f_equal; lia|]. split; [exact Hv|]. split; [lia | exact Hdm].
Qed.

Lemma round_scaled (s : bool) (p q : positive) (k : Z) :
  Zpos p < 2 ^ 53 -> 0 <= k -> Zpos q = Zpos p * 2 ^ k ->
  binary_round prec emax s q (- k) = binary_round prec emax s p 0.
Proof.
  intros Hp Hk Hq.
  pose proof (digits2_small p Hp) as Hd.
  pose proof (digits2_bounds p) as Hbp.
  pose proof (digits2_bounds q) as Hbq.
  set (d := Zpos (digits2_pos p)) in *.
  set (d' := Zpos (digits2_pos q)) in *.
  assert (Hd' : d' = d + k).
  { assert (H1 : 2 ^ (d + k - 1) <= Zpos q).
    { rewrite Hq. replace (d + k - 1) with (d - 1 + k) by lia.
      rewrite Z.pow_add_r by lia. apply Z.mul_le_mono_nonneg_r; [apply Z.pow_nonneg|]; lia. }
    assert (H2 : Zpos q < 2 ^ (d + k)).
    { rewrite Hq, Z.pow_add_r by lia.
      apply Z.mul_lt_mono_pos_r; [apply Z.pow_pos_nonneg|]; lia. }
    destruct (Z.lt_trichotomy d' (d + k)) as [Hlt|[Heq|Hgt]]; [|assumption|].
    - exfalso. assert (2 ^ d' <= 2 ^ (d + k - 1)) by (apply Z.pow_le_mono_r; lia). lia.
    - exfalso. assert (2 ^ (d + k) <= 2 ^ (d' - 1)) by (apply Z.pow_le_mono_r; lia). lia. }
  destruct (binary_round_short s p 0 Hd) as [m [Hm [Hv Hdm]]]; [fold d; lia|].
  fold d in Hm, Hv. rewrite Hm.
  destruct (Z.le_gt_cases d' 53) as [Hshort|Hlong].
  - destruct (binary_round_short s q (- k) Hshort) as [m' [Hm' [Hv' Hdm']]];
      [fold d'; lia|].
    fold d' in Hm', Hv'. rewrite Hm'.
    assert (m' = m) as ->.
    { apply Pos2Z.inj. rewrite Hv', Hv, Hq, Hd', <- Z.mul_assoc, <- Z.pow_add_r by lia.
      f_equal. f_equal. lia. }
    f_equal. lia.
  - assert (Hn : 0 < d' - 53) by lia.
    destruct (d' - 53) as [|n|n] eqn:En; try lia.
    rewrite (binary_round_long s q m (- k) n Hdm).
    + f_equal. lia.
    + rewrite Hv, Hq, <- Z.mul_assoc, <- Z.pow_add_r by lia.
      f_equal. f_equal. lia.
    + lia.
Qed.

Lemma normalize_scaled (v k : Z) :
  v <> 0 -> Z.abs v < 2 ^ 53 -> 0 <= k ->
  binary_normalize prec emax (v * 2 ^ k) (- k) false
  = binary_normalize prec emax v 0 false.
Proof.
  intros Hv Hlt Hk.
  assert (Hpow : 0 < 2 ^ k) by (apply Z.pow_pos_nonneg; lia).
  destruct v as [|p|p]; [congruence| |].
  - destruct (Zpos p * 2 ^ k) as [|q|q] eqn:Eq; try lia.
    cbn [binary_normalize]. apply round_scaled; [exact Hlt | exact Hk | now rewrite Eq].
  - destruct (Zneg p * 2 ^ k) as [|q|q] eqn:Eq; try lia.
    cbn [binary_normalize]. apply round_scaled; [exact Hlt | exact Hk | lia].
Qed.

Lemma shl_align_val (m : positive) (e e' : Z) :
  e' <= e -> Zpos (fst (shl_align m e e')) = Zpos m * 2 ^ (e - e').
Proof.
  intros Hle. unfold shl_align.
  destruct (e' - e) as [|n|n] eqn:En; try lia; cbn [fst].
  - replace (e - e') with 0 by lia. lia.
  - rewrite iter_xO_val. f_equal. f_equal. lia.
Qed.

Lemma cond_Zopp_abs (z k : Z) :
  cond_Zopp (z <? 0)%Z (Z.abs z * k) = z * k.
Proof.
  unfold cond_Zopp. destruct (Z.ltb_spec z 0); lia.
Qed.

(** Adding two integers below [2 ^ 53] whose sum is below [2 ^ 53] does not
    round. *)
Lemma SFadd_int (a b : Z) :
  Z.abs a < 2 ^ 53 -> Z.abs b < 2 ^ 53 -> Z.abs (a + b) < 2 ^ 53 ->
  SF64add (binary_normalize prec emax a 0 false)
          (binary_normalize prec emax b 0 false)
  = binary_normalize prec emax (a + b) 0 false.
Proof.
  intros Ha Hb Hab.
  destruct (Z.eq_dec a 0) as [->|Hna].
  { destruct (Z.eq_dec b 0) as [->|Hnb]; [reflexivity|].
    destruct (normalize_int b Hnb Hb) as [m [d [Hm _]]].
    rewrite Z.add_0_l, Hm. reflexivity. }
  destruct (Z.eq_dec b 0) as [->|Hnb].
  { destruct (normalize_int a Hna Ha) as [m [d [Hm _]]].
    rewrite Z.add_0_r, Hm. reflexivity. }
  destruct (normalize_int a Hna Ha) as [ma [da [Hma [Hva [Hda _]]]]].
  destruct (normalize_int b Hnb Hb) as [mb [db [Hmb [Hvb [Hdb _]]]]].
  rewrite Hma, Hmb. unfold SF64add, SFadd.
  set (ez := Z.min (da - 53) (db - 53)).
  rewrite !shl_align_val by (unfold ez; lia).
  rewrite Hva, Hvb, <- !Z.mul_assoc, <- !Z.pow_add_r by (unfold ez; lia).
  replace (53 - da + (da - 53 - ez)) with (- ez) by lia.
  replace (53 - db + (db - 53 - ez)) with (- ez) by lia.
  rewrite !cond_Zopp_abs, <- Z.mul_add_distr_r.
  destruct (Z.eq_dec (a + b) 0) as [E|Hnab].
  - rewrite E. reflexivity.
  - replace ez with (- - ez) at 2 by lia.
    apply normalize_scaled; [assumption | assumption | unfold ez; lia].
Qed.

Lemma normalize_int_valid (z : Z) :
  Z.abs z < 2 ^ 53 -> valid_binary (binary_normalize prec emax z 0 false) = true.
Proof.
  intros Hz. destruct (Z.eq_dec z 0) as [->|Hnz]; [reflexivity|].
  destruct (normalize_int z Hnz Hz) as [m [d [Hm [_ [Hd Hdm]]]]].
  rewrite Hm. cbn [valid_binary]. unfold bounded, canonical_mantissa.
  rewrite Hdm. apply andb_true_intro. split.
  - apply Z.eqb_eq. unfold fexp, emin, prec, emax. lia.
  - apply Z.leb_le. unfold prec, emax. lia.
Qed.

Lemma of_Z_add (a b : Z) :
  Z.abs a < 2 ^ 53 -> Z.abs b < 2 ^ 53 -> Z.abs (a + b) < 2 ^ 53 ->
  (F64.of_Z a + F64.of_Z b)%float = F64.of_Z (a + b).
Proof.
  intros Ha Hb Hab. apply Prim2SF_inj.
  rewrite add_spec. unfold F64.of_Z.
  rewrite !Prim2SF_SF2Prim by now apply normalize_int_valid.
  now apply SFadd_int.
Qed.

Lemma of_Z_not_nan (z : Z) :
  Z.abs z < 2 ^ 53 -> PrimFloat.is_nan (F64.of_Z z) = false.
Proof.
  intros Hz. unfold PrimFloat.is_nan. rewrite FloatAxioms.eqb_spec.
  unfold F64.of_Z. rewrite Prim2SF_SF2Prim by now apply normalize_int_valid.
  destruct (Z.eq_dec z 0) as [->|Hnz]; [reflexivity|].
  destruct (normalize_int z Hnz Hz) as [m [d [Hm _]]]. rewrite Hm.
  unfold SFeqb, SFcompare. destruct (z <? 0)%Z; simpl.
  - rewrite Z.compare_refl, Pos.compare_cont_refl. reflexivity.
  - rewrite Z.compare_refl, Pos.compare_cont_refl. reflexivity.
Qed.

#[global] Instance F64_integers : NumericIntegers float.
Proof.
  split.
  - exact of_Z_add.
  - reflexivity.
  - exact of_Z_not_nan.
Qed.

(** * The claims about the evaluator *)

Section EvaluatorClaims.
Context {num : Type} `{Numeric num}.

Lemma evaluate_all_present (df : DataFrame num) month_n fl :
  missing df "month" = false ->
  window_check month_n (column df "month") = Ok tt ->
  (forall f, In f fl -> missing df f = false) ->
  evaluate df month_n fl = Ok (List.filter (triggered df month_n) (dedup fl)).
Proof.
  intros Hmonth Hcheck Hall. unfold evaluate.
  destruct (List.find (missing df) fl) as [f|] eqn:Efind.
  - apply find_some in Efind. destruct Efind as [Hin Hf].
    rewrite Hall in Hf by assumption. discriminate.
  - destruct fl; [reflexivity|].
    now rewrite (getitem_column _ _ Hmonth), bind_Ok, Hcheck.
Qed.

(** With an integer [month] column and the named columns, the evaluator
    returns. *)
Lemma evaluate_int_month (df : DataFrame num) month_n fl ms :
  getitem df "month" = Ok (SInt ms) ->
  (forall f, In f fl -> has_column df f) ->
  evaluate df month_n fl = Ok (List.filter (triggered df month_n) (dedup fl)).
Proof.
  intros Hm Hcols. apply evaluate_all_present.
  - apply missing_false. now exists (SInt ms).
  - unfold column. now rewrite Hm.
  - intros f Hin. apply missing_false. auto.
Qed.

(** What the evaluator returns, when it returns. *)
Lemma evaluate_Ok_eq (df : DataFrame num) month_n fl r :
  evaluate df month_n fl = Ok r ->
  r = List.filter (triggered df month_n) (dedup fl).
Proof.
  unfold evaluate. destruct (List.find (missing df) fl); [discriminate|].
  destruct fl as [|f0 fl']; [now intros [= <-]|].
  destruct (getitem df "month") as [months|e]; [|discriminate].
  rewrite bind_Ok.
  destruct (window_check month_n months) as [u|e]; [|discriminate].
  rewrite bind_Ok. congruence.
Qed.




Lemma evaluate_incl (df : DataFrame num) month_n fl r :
  evaluate df month_n fl = Ok r -> incl r fl.
Proof.
  intros Hr. rewrite (evaluate_Ok_eq _ _ _ _ Hr).
  intros f Hin. apply filter_In in Hin. now apply In_dedup.
Qed.

(** Claim C4.  The tracked list is the constant of six names, and whatever
    the table and the month, every feature the evaluator returns for it is
    one of the six. *)
Theorem evaluate_within_tracked_features
    (df : DataFrame num) (month_n : Z) (r : list string) :
  calculate_feature_differences df month_n feature_list = Ok r ->
  feature_list =
    [ "s_avg_clustering_coef"; "t_num_dev_nodes"; "t_num_dev_per_file";
      "t_graph_density"; "st_num_dev"; "t_net_overlap" ] /\
  forall f, In f r ->
    f = "s_avg_clustering_coef" \/ f = "t_num_dev_nodes" \/
    f = "t_num_dev_per_file" \/ f = "t_graph_density" \/
    f = "st_num_dev" \/ f = "t_net_overlap".
Proof.
  rewrite calculate_feature_differences_eq. intros Hr.
  split; [reflexivity|].
  intros f Hin. apply (evaluate_incl _ _ _ _ Hr) in Hin.
  simpl in Hin. intuition.
Qed.



End EvaluatorClaims.


Section EmptyWindow.
Context {num : Type} `{Numeric num} `{!NumericOrder num}.





End EmptyWindow.

(** * Row order

    A float64 sum depends on the order in which its cells are added, and so
    do the window sum and the mean of a column, and the result of the
    evaluator.  It does not where no addition rounds: on columns of integers
    whose absolute values add up to less than [2 ^ 53]. *)

Lemma Permutation_list_filter {A : Type} (f : A -> bool) (l l' : list A) :
  Permutation l l' -> Permutation (List.filter f l) (List.filter f l').
Proof.
  induction 1 as [|x l l' _ IH|x y l|l l' l'' _ IH1 _ IH2]; simpl.
  - constructor.
  - destruct (f x); [now constructor | assumption].
  - destruct (f x), (f y); try reflexivity. apply perm_swap.
  - now transitivity (List.filter f l').
Qed.

Lemma map_nth_seq {A : Type} (l : list A) (d : A) :
  map (fun i => nth i l d) (seq 0 (length l)) = l.
Proof.
  induction l as [|x l IH]; simpl; [reflexivity|].
  f_equal. rewrite <- seq_shift, map_map. exact IH.
Qed.

(** Taking the rows in a permuted order permutes every column. *)
Lemma take_Permutation {A : Type} (p : list nat) (l : list A) (d : A) :
  Permutation p (seq 0 (length l)) ->
  Permutation (map (fun i => nth i l d) p) l.
Proof.
  intros Hp. eapply Permutation_trans.
  - apply Permutation_map, Hp.
  - now rewrite map_nth_seq.
Qed.

Lemma combine_take {A B : Type} (p : list nat) (a : list A) (b : list B) da db :
  length a = length b ->
  combine (map (fun i => nth i a da) p) (map (fun i => nth i b db) p)
  = map (fun i => nth i (combine a b) (da, db)) p.
Proof.
  intros Hlen. induction p as [|i p IH]; simpl; [reflexivity|].
  rewrite IH. f_equal. symmetry. now apply combine_nth.
Qed.

Lemma select_map {A B : Type} (f : A -> bool) (ms : list A) (vs : list B) :
  select (map f ms) vs
  = map snd (List.filter (fun mv => f (fst mv)) (combine ms vs)).
Proof.
  unfold select. revert vs.
  induction ms as [|m ms IH]; intros vs; simpl; [reflexivity|].
  destruct vs as [|v vs]; simpl; [reflexivity|].
  destruct (f m); simpl; now rewrite IH.
Qed.

(** The cells of the window after a permutation of the rows are a
    permutation of the cells of the window. *)
Lemma select_take {A B : Type} (f : A -> bool) (p : list nat)
    (ms : list A) (vs : list B) dm dv :
  length ms = length vs ->
  Permutation p (seq 0 (length ms)) ->
  Permutation
    (select (map f (map (fun i => nth i ms dm) p)) (map (fun i => nth i vs dv) p))
    (select (map f ms) vs).
Proof.
  intros Hlen Hp. rewrite !select_map.
  apply Permutation_map, Permutation_list_filter.
  rewrite (combine_take p ms vs dm dv Hlen).
  apply take_Permutation. rewrite length_combine, <- Hlen, Nat.min_id.
  exact Hp.
Qed.

Lemma list_find_ext {A : Type} (f g : A -> bool) (l : list A) :
  (forall x, f x = g x) -> List.find f l = List.find g l.
Proof.
  intros Hfg. induction l as [|x l IH]; simpl; [reflexivity|].
  now rewrite Hfg, IH.
Qed.


Lemma fold_Zadd_Permutation (l l' : list Z) :
  Permutation l l' ->
  forall a, fold_left Z.add l a = fold_left Z.add l' a.
Proof.
  induction 1 as [|x l l' _ IH|x y l|l l' l'' _ IH1 _ IH2]; intros a; simpl.
  - reflexivity.
  - apply IH.
  - f_equal. lia.
  - now rewrite IH1.
Qed.


(** ** The order in which numpy adds the cells *)

Section SumFacts.
Context {num : Type} `{Numeric num}.

Lemma adds_fold (l0 l : list num) (a : num) :
  adds_up l0 a -> adds_up (l0 ++ l) (fold_left num_add l a).
Proof.
  revert l0 a. induction l as [|y l IH]; intros l0 a Ha; simpl.
  - now rewrite app_nil_r.
  - replace (l0 ++ y :: l) with ((l0 ++ [y]) ++ l) by now rewrite <- app_assoc.
    apply IH. apply adds_plus; [assumption | constructor].
Qed.

Lemma adds_sum_short (l : list num) : l <> [] -> adds_up l (sum_short l).
Proof.
  destruct l as [|x l]; [congruence|]. intros _. simpl.
  apply (adds_fold [x] l x). constructor.
Qed.

Lemma lanes_push_adds (Ls : list (list num)) (r l : list num) :
  Forall2 adds_up Ls r -> Forall2 adds_up (lanes_push Ls l) (lanes_add r l).
Proof.
  intros HF. revert l. induction HF as [|L x Ls r HL HF IH]; intros l; simpl.
  - constructor.
  - destruct l as [|y l].
    + now constructor.
    + constructor; [|apply IH]. apply adds_plus; [assumption | constructor].
Qed.

Lemma lanes_push_concat (Ls : list (list num)) (l : list num) :
  (length l <= length Ls)%nat ->
  Permutation (concat (lanes_push Ls l)) (concat Ls ++ l).
Proof.
  revert l. induction Ls as [|L Ls IH]; intros l Hlen.
  - destruct l; simpl in *; [reflexivity | lia].
  - destruct l as [|y l]; simpl in *.
    + now rewrite app_nil_r.
    + rewrite IH by lia. rewrite <- !app_assoc. apply Permutation_app_head.
      simpl. rewrite Permutation_middle. reflexivity.
Qed.

Lemma lanes_add_length (r l : list num) : length (lanes_add r l) = length r.
Proof.
  revert l. induction r as [|x r IH]; intros l; [reflexivity|].
  destruct l; simpl; [reflexivity | now rewrite IH].
Qed.

Lemma lanes_loop_adds (k : nat) :
  forall (Ls : list (list num)) (r l r' rest : list num),
    length r = 8%nat ->
    Forall2 adds_up Ls r ->
    lanes_loop k r l = (r', rest) ->
    exists Ls',
      Forall2 adds_up Ls' r' /\ length r' = 8%nat /\
      Permutation (concat Ls' ++ rest) (concat Ls ++ l).
Proof.
  induction k as [|k IH]; intros Ls r l r' rest Hlen HF Hloop; simpl in Hloop.
  - injection Hloop as <- <-. exists Ls. auto.
  - pose proof (Forall2_length _ _ _ HF) as HlenLs.
    destruct (IH (lanes_push Ls (firstn 8 l)) _ _ _ _
                (eq_trans (lanes_add_length r (firstn 8 l)) Hlen)
                (lanes_push_adds Ls r (firstn 8 l) HF) Hloop)
      as [Ls' [HF' [Hlen' Hperm]]].
    exists Ls'. split; [assumption|]. split; [assumption|].
    rewrite Hperm, lanes_push_concat.
    + rewrite <- app_assoc, firstn_skipn. reflexivity.
    + rewrite length_firstn. lia.
Qed.

Lemma lanes_total_adds (Ls : list (list num)) (r : list num) :
  length r = 8%nat -> Forall2 adds_up Ls r ->
  adds_up (concat Ls) (lanes_total r).
Proof.
  intros Hlen HF.
  do 8 (destruct HF as [|? ? ? ? ? HF]; [discriminate|]).
  destruct HF; [|discriminate].
  cbn [lanes_total concat]. rewrite app_nil_r.
  eapply adds_perm; [|repeat apply adds_plus; eassumption].
  rewrite <- !app_assoc. reflexivity.
Qed.

Lemma lanes_start (l : list num) :
  Forall2 adds_up (map (fun x => [x]) l) l.
Proof. induction l; simpl; repeat constructor; assumption. Qed.

Lemma lanes_start_concat (l : list num) :
  concat (map (fun x => [x]) l) = l.
Proof. induction l; simpl; congruence. Qed.

Lemma adds_sum_block (l : list num) :
  (8 <= length l)%nat -> adds_up l (sum_block l).
Proof.
  intros Hlen. unfold sum_block.
  destruct (lanes_loop (length l / 8 - 1) (firstn 8 l) (skipn 8 l))
    as [r rest] eqn:Eloop.
  assert (H8 : length (firstn 8 l) = 8%nat) by (rewrite length_firstn; lia).
  pose proof (lanes_start (firstn 8 l)) as HF0.
  destruct (lanes_loop_adds _ _ _ _ _ _ H8 HF0 Eloop)
    as [Ls [HF [Hlen8 Hperm]]].
  eapply adds_perm; [|apply adds_fold, (lanes_total_adds Ls r Hlen8 HF)].
  rewrite Hperm.
  rewrite lanes_start_concat. now rewrite firstn_skipn.
Qed.

Lemma half_bounds (n : nat) :
  (128 < n)%nat ->
  (0 < n / 2 - (n / 2) mod 8 < n)%nat.
Proof.
  intros Hn.
  pose proof (Nat.mod_upper_bound (n / 2) 8 ltac:(lia)).
  pose proof (Nat.div_le_lower_bound n 2 64 ltac:(lia) ltac:(lia)).
  pose proof (Nat.div_lt n 2 ltac:(lia) ltac:(lia)).
  lia.
Qed.

Lemma adds_pairwise_sum (fuel : nat) :
  forall l : list num, l <> [] -> adds_up l (pairwise_sum fuel l).
Proof.
  induction fuel as [|fuel IH]; intros l Hne; cbn [pairwise_sum];
    destruct (Nat.ltb_spec (length l) 8);
    try (now apply adds_sum_short);
    destruct (Nat.leb_spec (length l) 128);
    try (now apply adds_sum_block).
  pose proof (half_bounds (length l) ltac:(lia)) as Hhalf.
  set (n2 := (length l / 2 - (length l / 2) mod 8)%nat) in *.
  rewrite <- (firstn_skipn n2 l) at 1.
  apply adds_plus; apply IH; intros E; apply (f_equal (@length num)) in E;
    rewrite ?length_firstn, ?length_skipn in E; simpl in E; lia.
Qed.

Lemma adds_float_sum (l : list num) : adds_up (num_zero :: l) (float_sum l).
Proof.
  destruct l as [|x l]; [constructor|].
  unfold float_sum. apply (adds_plus [num_zero] (x :: l)); [constructor|].
  now apply adds_pairwise_sum.
Qed.

Lemma chunks_of_concat {A : Type} (fuel size : nat) (l : list A) :
  concat (chunks_of fuel size l) = l.
Proof.
  revert l. induction fuel as [|fuel IH]; intros l; destruct l as [|x l];
    cbn [chunks_of concat]; try reflexivity.
  - now rewrite app_nil_r.
  - rewrite IH. apply firstn_skipn.
Qed.

Lemma chunks_of_nonempty {A : Type} (fuel size : nat) (l : list A) :
  (0 < size)%nat -> Forall (fun c => c <> []) (chunks_of fuel size l).
Proof.
  intros Hsize. revert l. induction fuel as [|fuel IH]; intros l;
    destruct l as [|x l]; cbn [chunks_of]; try constructor; try discriminate.
  - constructor.
  - destruct size; [lia | discriminate].
  - apply IH.
Qed.

(** The length of the list is fuel enough for its pieces: none is longer
    than [size]. *)
Lemma chunks_of_length {A : Type} (fuel size : nat) :
  (0 < size)%nat ->
  forall l : list A,
    (length l <= fuel)%nat ->
    Forall (fun c => (length c <= size)%nat) (chunks_of fuel size l).
Proof.
  intros Hsize. induction fuel as [|fuel IH]; intros l Hlen;
    destruct l as [|x l]; cbn [chunks_of]; try (now constructor).
  constructor.
  - rewrite length_firstn. lia.
  - apply IH. rewrite length_skipn. simpl in *. lia.
Qed.

Lemma adds_cast_fold (cs : list (list Z)) :
  Forall (fun c => c <> []) cs ->
  forall (l0 : list num) (a : num),
    adds_up l0 a ->
    adds_up (l0 ++ map num_of_Z (concat cs))
      (fold_left
         (fun total cells =>
            num_add total (pairwise_sum (length cells) (map num_of_Z cells)))
         cs a).
Proof.
  induction 1 as [|c cs Hc _ IH]; intros l0 a Ha; simpl.
  - now rewrite app_nil_r.
  - rewrite map_app, app_assoc. apply IH. apply adds_plus; [assumption|].
    apply adds_pairwise_sum. now destruct c.
Qed.

Lemma adds_cast_sum (l : list Z) :
  adds_up (num_zero :: map num_of_Z l) (cast_sum l).
Proof.
  unfold cast_sum.
  rewrite <- (chunks_of_concat (length l) (Z.to_nat 8192) l) at 1.
  assert (Hsize : (0 < Z.to_nat 8192)%nat) by lia.
  apply (adds_cast_fold _ (chunks_of_nonempty (length l) _ l Hsize) [num_zero]).
  constructor.
Qed.

(** The length of the list is fuel enough: with it, and with any larger
    bound, the halving reaches blocks of at most 128 cells. *)
Lemma pairwise_sum_fuel (fuel : nat) :
  forall (fuel' : nat) (l : list num),
    (length l <= fuel)%nat -> (length l <= fuel')%nat ->
    pairwise_sum fuel l = pairwise_sum fuel' l.
Proof.
  induction fuel as [|fuel IH]; intros fuel' l Hf Hf'.
  - destruct l; [|simpl in Hf; lia]. now destruct fuel'.
  - destruct fuel' as [|fuel'].
    + destruct l; [reflexivity | simpl in Hf'; lia].
    + cbn [pairwise_sum].
      destruct (Nat.ltb_spec (length l) 8); [reflexivity|].
      destruct (Nat.leb_spec (length l) 128); [reflexivity|].
      pose proof (half_bounds (length l) ltac:(lia)) as Hhalf.
      f_equal; apply IH; rewrite ?length_firstn, ?length_skipn; lia.
Qed.

End SumFacts.

(** ** Sums of small integers *)

Lemma sum_abs_nonneg (l : list Z) : 0 <= sum_abs l.
Proof. induction l; simpl; lia. Qed.

Lemma sum_abs_app (l1 l2 : list Z) : sum_abs (l1 ++ l2) = sum_abs l1 + sum_abs l2.
Proof. induction l1; simpl; lia. Qed.

Lemma sum_abs_Permutation (l l' : list Z) :
  Permutation l l' -> sum_abs l = sum_abs l'.
Proof. induction 1; simpl; lia. Qed.

Lemma list_sum_abs (l : list Z) : Z.abs (fold_right Z.add 0 l) <= sum_abs l.
Proof. induction l; simpl; lia. Qed.

Lemma list_sum_app (l1 l2 : list Z) :
  fold_right Z.add 0 (l1 ++ l2) = fold_right Z.add 0 l1 + fold_right Z.add 0 l2.
Proof. induction l1; simpl; lia. Qed.

Lemma list_sum_Permutation (l l' : list Z) :
  Permutation l l' -> fold_right Z.add 0 l = fold_right Z.add 0 l'.
Proof. induction 1; simpl; lia. Qed.

Lemma sum_abs_select (mask : list bool) (l : list Z) :
  sum_abs (select mask l) <= sum_abs l.
Proof.
  unfold select. revert l. induction mask as [|b mask IH]; intros l; simpl.
  - apply sum_abs_nonneg.
  - destruct l as [|z l]; simpl; [lia|].
    specialize (IH l). destruct b; simpl; lia.
Qed.

Lemma Forall2_select {A B : Type} (R : A -> B -> Prop) (mask : list bool)
    (l : list A) (k : list B) :
  Forall2 R l k -> Forall2 R (select mask l) (select mask k).
Proof.
  unfold select. intros HF. revert mask.
  induction HF as [|x y l k Hxy HF IH]; intros mask.
  - destruct mask; constructor.
  - destruct mask as [|b mask]; simpl; [constructor|].
    destruct b; simpl; [constructor; [assumption|]|]; apply IH.
Qed.

Section IntegerSums.
Context {num : Type} `{Numeric num} `{!NumericIntegers num}.

(** However the cells are grouped and ordered, adding small integers gives
    their sum. *)
Lemma adds_up_integers (l : list num) (x : num) :
  adds_up l x ->
  forall zs : list Z,
    l = map num_of_Z zs -> sum_abs zs < 2 ^ 53 ->
    x = num_of_Z (fold_right Z.add 0 zs).
Proof.
  induction 1 as [x|l1 l2 x1 x2 _ IH1 _ IH2|l l' x Hperm _ IH];
    intros zs Hzs Hsmall.
  - destruct zs as [|z [|z' zs]]; try discriminate.
    injection Hzs as ->. simpl. f_equal. lia.
  - symmetry in Hzs. apply List.map_eq_app in Hzs.
    destruct Hzs as [zs1 [zs2 [-> [Hz1 Hz2]]]].
    rewrite sum_abs_app in Hsmall.
    pose proof (sum_abs_nonneg zs1). pose proof (sum_abs_nonneg zs2).
    pose proof (list_sum_abs zs1). pose proof (list_sum_abs zs2).
    rewrite (IH1 zs1), (IH2 zs2) by (auto; lia).
    rewrite list_sum_app. apply num_add_of_Z; lia.
  - subst l'. apply Permutation_map_inv in Hperm.
    destruct Hperm as [zs0 [-> Hperm]].
    rewrite (list_sum_Permutation _ _ Hperm).
    apply IH; [reflexivity|]. now rewrite <- (sum_abs_Permutation _ _ Hperm).
Qed.

Lemma float_sum_integers (zs : list Z) :
  sum_abs zs < 2 ^ 53 ->
  float_sum (map num_of_Z zs) = num_of_Z (fold_right Z.add 0 zs).
Proof.
  intros Hsmall.
  apply (adds_up_integers _ _ (adds_float_sum (map num_of_Z zs)) (0 :: zs)).
  - simpl. now rewrite <- num_zero_of_Z.
  - simpl. lia.
Qed.

Lemma cast_sum_integers (zs : list Z) :
  sum_abs zs < 2 ^ 53 ->
  cast_sum zs = num_of_Z (fold_right Z.add 0 zs).
Proof.
  intros Hsmall.
  apply (adds_up_integers _ _ (adds_cast_sum zs) (0 :: zs)).
  - simpl. now rewrite <- num_zero_of_Z.
  - simpl. lia.
Qed.

Lemma fillna0_cells (l : list num) (zs : list Z) :
  Forall2 cell_holds l zs -> sum_abs zs < 2 ^ 53 ->
  fillna0 l = map num_of_Z zs.
Proof.
  unfold fillna0. induction 1 as [|x z l zs Hxz _ IH]; intros Hsmall;
    [reflexivity|].
  simpl in Hsmall. pose proof (sum_abs_nonneg zs).
  cbn [map]. rewrite IH by lia. f_equal.
  destruct Hxz as [->|[-> ->]].
  - now rewrite num_isnan_of_Z by lia.
  - apply num_zero_of_Z.
Qed.

Lemma count_valid_Permutation (l l' : list num) :
  Permutation l l' -> count_valid l = count_valid l'.
Proof.
  intros Hp. unfold count_valid. apply Permutation_length.
  now apply Permutation_list_filter.
Qed.

Lemma small_integers_select (mask : list bool) (s : Series num) :
  small_integers s -> small_integers (series_select mask s).
Proof.
  destruct s as [l|l]; simpl.
  - pose proof (sum_abs_select mask l). lia.
  - intros [zs [HF Hsmall]]. exists (select mask zs). split.
    + now apply Forall2_select.
    + pose proof (sum_abs_select mask zs). lia.
Qed.

Lemma float_sum_cells_perm (l l' : list num) :
  Permutation l l' ->
  (exists zs, Forall2 cell_holds l' zs /\ sum_abs zs < 2 ^ 53) ->
  float_sum (fillna0 l) = float_sum (fillna0 l').
Proof.
  intros Hp [zs' [HF' Hsmall']].
  destruct (Permutation_Forall2 (Permutation_sym Hp) HF') as [zs [Hpz HF]].
  assert (Hsmall : sum_abs zs < 2 ^ 53)
    by now rewrite <- (sum_abs_Permutation _ _ Hpz).
  rewrite (fillna0_cells l zs HF Hsmall), (fillna0_cells l' zs' HF' Hsmall').
  rewrite !float_sum_integers by assumption.
  now rewrite (list_sum_Permutation _ _ Hpz).
Qed.

(** The sum and the mean of a column of small integers do not depend on the
    order of its cells. *)
Lemma series_sum_perm (s s' : Series num) :
  series_perm s s' -> small_integers s' -> series_sum s = series_sum s'.
Proof.
  destruct s as [l|l], s' as [l'|l']; simpl; try tauto; intros Hp Hsmall.
  - f_equal. f_equal. now apply fold_Zadd_Permutation.
  - f_equal. now apply float_sum_cells_perm.
Qed.

Lemma series_mean_perm (s s' : Series num) :
  series_perm s s' -> small_integers s' -> series_mean s = series_mean s'.
Proof.
  destruct s as [l|l], s' as [l'|l']; simpl; try tauto; intros Hp Hsmall.
  - pose proof (Permutation_length Hp) as Hlen.
    destruct l as [|x l], l' as [|x' l']; try discriminate; [reflexivity|].
    rewrite Hlen. f_equal.
    rewrite !cast_sum_integers;
      [now rewrite (list_sum_Permutation _ _ Hp) | assumption |].
    now rewrite (sum_abs_Permutation _ _ Hp).
  - rewrite (count_valid_Permutation _ _ Hp).
    destruct (count_valid l'); [reflexivity|].
    f_equal. now apply float_sum_cells_perm.
Qed.

End IntegerSums.

Section RowOrder.
Context {num : Type} `{Numeric num} `{!NumericIntegers num}.

Lemma take_series_perm p (s : Series num) :
  Permutation p (seq 0 (nrows_of s)) -> series_perm (take_series p s) s.
Proof. destruct s as [l|l]; simpl; apply take_Permutation. Qed.

Lemma window_take_perm month_n p (months col : Series num) :
  nrows_of months = nrows_of col ->
  Permutation p (seq 0 (nrows_of months)) ->
  series_perm (window_of month_n (take_series p months) (take_series p col))
              (window_of month_n months col).
Proof.
  unfold window_of.
  destruct months as [ms|ms], col as [vs|vs]; simpl; intros Hlen Hp;
    now apply select_take.
Qed.

Lemma window_check_take month_n p (months : Series num) :
  window_check month_n (take_series p months) = window_check month_n months.
Proof.
  destruct months as [l|l]; [reflexivity|].
  unfold window_check. simpl. unfold float_of_int.
  destruct (num_isinf (num_of_Z (month_n - 2))); [reflexivity|].
  now destruct (num_isinf (num_of_Z month_n)).
Qed.

Lemma getitem_take_rows p (df : DataFrame num) f :
  getitem (take_rows p df) f =
  match getitem df f with
  | Ok s => Ok (take_series p s)
  | Raise e => Raise e
  end.
Proof.
  unfold getitem, take_rows. rewrite lookup_fmap. now destruct (df !! f).
Qed.

Lemma missing_take_rows p (df : DataFrame num) f :
  missing (take_rows p df) f = missing df f.
Proof.
  unfold missing. rewrite getitem_take_rows. now destruct (getitem df f).
Qed.

Lemma column_take_rows p (df : DataFrame num) f :
  missing df f = false ->
  column (take_rows p df) f = take_series p (column df f).
Proof.
  unfold missing, column. rewrite getitem_take_rows.
  destruct (getitem df f); [reflexivity | discriminate].
Qed.

Lemma has_rows_column n (df : DataFrame num) f :
  has_rows n df -> missing df f = false -> nrows_of (column df f) = n.
Proof.
  unfold has_rows, missing, column, getitem. intros Hrows.
  destruct (df !! f) as [s|] eqn:E; [|discriminate].
  intros _. now apply (Hrows f).
Qed.

Lemma has_rows_list_to_map n (l : list (string * Series num)) :
  Forall (fun c => nrows_of (snd c) = n) l -> has_rows n (list_to_map l).
Proof.
  intros HF name s Hlook. apply elem_of_list_to_map_2 in Hlook.
  rewrite List.Forall_forall in HF.
  apply (HF (name, s)). now apply list_elem_of_In.
Qed.

Lemma triggered_take_rows n p (df : DataFrame num) month_n f :
  has_rows n df -> Permutation p (seq 0 n) ->
  missing df "month" = false -> missing df f = false ->
  small_integers (column df f) ->
  triggered (take_rows p df) month_n f = triggered df month_n f.
Proof.
  intros Hrows Hp Hm Hf Hsmall. unfold triggered, difference.
  rewrite !column_take_rows by assumption.
  pose proof (has_rows_column n df "month" Hrows Hm) as Hnm.
  pose proof (has_rows_column n df f Hrows Hf) as Hnf.
  rewrite (series_sum_perm _ (window_of month_n (column df "month") (column df f))).
  2:{ apply window_take_perm; [congruence | now rewrite Hnm]. }
  2:{ now apply small_integers_select. }
  rewrite (series_mean_perm _ (column df f)).
  2:{ apply take_series_perm. now rewrite Hnf. }
  2:{ assumption. }
  reflexivity.
Qed.

(** The evaluator on a table and on the table with its rows taken in
    another order: the same error, or two lists that differ at most by what
    the test of the difference answers. *)
Lemma evaluate_take_rows
    (df : DataFrame num) (p : list nat) (month_n : Z)
    (feature_names : list string) :
  (exists e,
     evaluate (take_rows p df) month_n feature_names = Raise e /\
     evaluate df month_n feature_names = Raise e) \/
  (evaluate (take_rows p df) month_n feature_names
   = Ok (List.filter (triggered (take_rows p df) month_n)
           (dedup feature_names)) /\
   evaluate df month_n feature_names
   = Ok (List.filter (triggered df month_n) (dedup feature_names)) /\
   missing df "month" = false /\
   forall f, In f feature_names -> missing df f = false) \/
  (feature_names = [] /\
   evaluate (take_rows p df) month_n feature_names = Ok [] /\
   evaluate df month_n feature_names = Ok []).
Proof.
  unfold evaluate.
  rewrite (list_find_ext (missing (take_rows p df)) (missing df))
    by (intros f; apply missing_take_rows).
  destruct (List.find (missing df) feature_names) eqn:Efind; [left; eauto|].
  pose proof (find_missing_none _ _ Efind) as Hall.
  destruct feature_names as [|f0 fl']; [right; right; auto|].
  rewrite getitem_take_rows.
  destruct (getitem df "month") as [months|e] eqn:Em; [|left; eauto].
  rewrite !bind_Ok, window_check_take.
  destruct (window_check month_n months); [|left; eauto].
  rewrite !bind_Ok. right. left.
  split; [reflexivity|]. split; [reflexivity|].
  split; [unfold missing; now rewrite Em | exact Hall].
Qed.

(** Claim C10, as amended.  For a table and the table with its rows
    permuted, the evaluator raises the same error or returns in both cases,
    and each list it returns follows the order of [feature_names].  On a
    table whose named feature columns hold integers (int64 cells, or float64
    cells that are integers or NaN) whose absolute values add up to less
    than [2 ^ 53], so that no sum of cells is rounded, it returns the same
    list. *)
Theorem evaluate_row_order_small_integers
    (n : nat) (df : DataFrame num) (p : list nat) (month_n : Z)
    (feature_names : list string) :
  has_rows n df ->
  Permutation p (seq 0 n) ->
  (forall e,
     calculate_feature_differences (take_rows p df) month_n feature_names
     = Raise e
     <-> calculate_feature_differences df month_n feature_names = Raise e) /\
  (forall r r',
     calculate_feature_differences df month_n feature_names = Ok r ->
     calculate_feature_differences (take_rows p df) month_n feature_names
     = Ok r' ->
     exists keep keep',
       r = List.filter keep (dedup feature_names) /\
       r' = List.filter keep' (dedup feature_names)) /\
  ((forall f col,
      In f feature_names -> getitem df f = Ok col -> small_integers col) ->
   calculate_feature_differences (take_rows p df) month_n feature_names
   = calculate_feature_differences df month_n feature_names).
Proof.
  intros Hrows Hp. rewrite !calculate_feature_differences_eq.
  destruct (evaluate_take_rows df p month_n feature_names)
    as [[e [-> ->]] | [[-> [-> [Hm Hall]]] | [-> [-> ->]]]].
  - split; [intros e'; reflexivity|].
    split; [discriminate | reflexivity].
  - split; [intros e; split; discriminate|].
    split.
    + intros r r' [= <-] [= <-]. eauto.
    + intros Hsmall. f_equal. apply filter_ext_in. intros f Hin.
      apply (proj1 (In_dedup _ _)) in Hin.
      apply (triggered_take_rows n); auto.
      apply (Hsmall f); [assumption | apply getitem_column; auto].
  - split; [intros e; split; discriminate|].
    split; [|reflexivity].
    intros r r' [= <-] [= <-]. exists (fun _ => true), (fun _ => true).
    split; reflexivity.
Qed.

End RowOrder.

(** * Facts about the selector *)

(** ** What the selector computes *)

Lemma selected_iff features e :
  selected features e = true <->
  exists t, In t (tokens e) /\ In t features.
Proof.
  unfold selected. rewrite existsb_exists. split.
  - intros [t [Hin Hmem]]. apply bool_decide_eq_true in Hmem.
    apply elem_of_list_to_set, list_elem_of_In in Hmem. eauto.
  - intros [t [Ht Hin]]. exists t. split; [assumption|].
    apply bool_decide_eq_true, elem_of_list_to_set, list_elem_of_In, Ht.
Qed.

Lemma next_loc_fresh w : objects w !! next_loc w = None.
Proof. apply not_elem_of_dom. unfold next_loc. apply is_fresh. Qed.

Lemma next_loc_ne w r o : objects w !! r = Some o -> r <> next_loc w.
Proof. intros Hr ->. rewrite next_loc_fresh in Hr. discriminate. Qed.

Lemma extends_refl w : extends w w.
Proof. intros r o Hr. exact Hr. Qed.

Lemma extends_trans w1 w2 w3 : extends w1 w2 -> extends w2 w3 -> extends w1 w3.
Proof. intros H12 H23 r o Hr. auto. Qed.

Lemma extends_with_list w items : extends w (with_list w (next_loc w) items).
Proof.
  intros r o Hr. simpl. rewrite lookup_insert_ne; [assumption|].
  apply not_eq_sym. eapply next_loc_ne; eauto.
Qed.

Lemma extends_is_dict w w' r : extends w w' -> is_dict w r -> is_dict w' r.
Proof. intros Hext [e He]. exists e. auto. Qed.

Lemma extends_entry_at w w' r :
  extends w w' -> is_dict w r -> entry_at w' r = entry_at w r.
Proof.
  intros Hext [e He]. unfold entry_at. now rewrite (Hext _ _ He), He.
Qed.

Lemma extends_entry_list w w' data items :
  extends w w' -> is_entry_list w data items -> is_entry_list w' data items.
Proof.
  intros Hext [Hdata Hitems]. split; [auto|].
  eapply Forall_impl; [exact Hitems|]. intros r. now apply extends_is_dict.
Qed.

Lemma kept_ext w w' features items :
  extends w w' -> Forall (is_dict w) items ->
  kept w' features items = kept w features items.
Proof.
  intros Hext Hitems. unfold kept. apply filter_ext_in. intros r Hin.
  rewrite List.Forall_forall in Hitems.
  rewrite (extends_entry_at w w'); auto.
Qed.

Lemma ranked_ext w w' items :
  extends w w' -> Forall (is_dict w) items -> ranked w' items = ranked w items.
Proof.
  intros Hext Hitems. unfold ranked. do 2 f_equal.
  apply map_ext_in. intros r Hin. unfold importance_at.
  rewrite List.Forall_forall in Hitems.
  rewrite (extends_entry_at w w'); auto.
Qed.

Lemma Forall_kept (P : loc -> Prop) w features items :
  Forall P items -> Forall P (kept w features items).
Proof.
  rewrite !List.Forall_forall. intros HP r Hin. apply filter_In in Hin. apply HP, Hin.
Qed.

(** ** Running the selector *)

Lemma pbind_Ok {A B : Type} (c : prog A) (k : A -> prog B) w a w' :
  c w = (Ok a, w') -> pbind c k w = k a w'.
Proof. intros Hc. unfold pbind. now rewrite Hc. Qed.

Lemma pbind_Raise {A B : Type} (c : prog A) (k : A -> prog B) w e w' :
  c w = (Raise e, w') -> pbind c k w = (Raise e, w').
Proof. intros Hc. unfold pbind. now rewrite Hc. Qed.

Lemma read_dict_run w r :
  is_dict w r -> read_dict r w = (Ok (entry_at w r), w).
Proof. intros [e He]. unfold read_dict, entry_at. now rewrite He. Qed.

Lemma list_items_run w l items :
  objects w !! l = Some (OList items) -> list_items l w = (Ok items, w).
Proof. intros Hl. unfold list_items. now rewrite Hl. Qed.

Lemma new_list_run w items :
  new_list items w = (Ok (next_loc w), with_list w (next_loc w) items).
Proof. reflexivity. Qed.

Lemma list_append_run (w : world) (l : loc) (acc : list loc) (x : loc) :
  list_append l x (with_list w l acc) = (Ok tt, with_list w l (acc ++ [x])).
Proof.
  unfold list_append, with_list. simpl.
  now rewrite lookup_insert_eq, insert_insert_eq.
Qed.

Lemma with_list_other (w : world) (l : loc) (acc : list loc) (r : loc) :
  objects w !! l = None -> is_dict w r ->
  is_dict (with_list w l acc) r /\ entry_at (with_list w l acc) r = entry_at w r.
Proof.
  intros Hl [e He].
  assert (Hne : l <> r) by (intros ->; congruence).
  unfold is_dict, entry_at, with_list. simpl.
  rewrite lookup_insert_ne by assumption. rewrite He. eauto.
Qed.

Lemma filter_loop_run features (w : world) (l : loc) items acc :
  Forall (is_dict w) items ->
  objects w !! l = None ->
  for_loop items
    (fun entry =>
       let! e := read_dict entry in
       let entry_features : gset string :=
         list_to_set (map strip (split "," (get_Features e))) in
       if existsb (fun feature => bool_decide (feature ∈ entry_features))
                  features
       then list_append l entry
       else ret tt)
    (with_list w l acc)
  = (Ok tt, with_list w l (acc ++ kept w features items)).
Proof.
  intros Hitems Hl. revert acc.
  induction Hitems as [|r items Hr _ IH]; intros acc.
  - simpl. now rewrite app_nil_r.
  - destruct (with_list_other w l acc r Hl Hr) as [Hr' Hentry].
    cbn [for_loop kept List.filter].
    fold (kept w features items).
    erewrite pbind_Ok
      with (w' := with_list w l
                    (acc ++ if selected features (entry_at w r) then [r] else [])).
    + rewrite IH. f_equal. f_equal.
      rewrite <- app_assoc.
      now destruct (selected features (entry_at w r)).
    + erewrite pbind_Ok by (apply read_dict_run; exact Hr').
      rewrite Hentry. cbv zeta.
      fold (tokens (entry_at w r)). fold (selected features (entry_at w r)).
      destruct (selected features (entry_at w r)).
      * apply list_append_run.
      * unfold ret. now rewrite app_nil_r.
Qed.

Lemma filter_json_by_features_run w data items features :
  is_entry_list w data items ->
  filter_json_by_features data features w
  = (Ok (next_loc w), with_list w (next_loc w) (kept w features items)).
Proof.
  intros [Hdata Hitems]. unfold filter_json_by_features.
  erewrite pbind_Ok by apply new_list_run.
  erewrite pbind_Ok.
  2:{ apply list_items_run. unfold with_list. simpl.
      rewrite lookup_insert_ne; [exact Hdata|].
      apply not_eq_sym. eapply next_loc_ne; eauto. }
  erewrite pbind_Ok.
  2:{ apply filter_loop_run; [assumption | apply next_loc_fresh]. }
  reflexivity.
Qed.

Lemma map_prog_read {B : Type} (g : loc -> entry -> B) w items :
  Forall (is_dict w) items ->
  map_prog (fun x => let! e := read_dict x in ret (g x e)) items w
  = (Ok (map (fun r => g r (entry_at w r)) items), w).
Proof.
  induction 1 as [|r items Hr _ IH]; [reflexivity|].
  cbn [map_prog map].
  erewrite pbind_Ok.
  2:{ erewrite pbind_Ok by (apply read_dict_run; exact Hr). reflexivity. }
  erewrite pbind_Ok by exact IH. reflexivity.
Qed.

Lemma map_prog_read_dict w items :
  Forall (is_dict w) items ->
  map_prog read_dict items w = (Ok (map (entry_at w) items), w).
Proof.
  induction 1 as [|r items Hr _ IH]; [reflexivity|].
  cbn [map_prog map].
  erewrite pbind_Ok by (apply read_dict_run; exact Hr).
  erewrite pbind_Ok by exact IH. reflexivity.
Qed.

Lemma sorted_by_Importance_run w l items :
  is_entry_list w l items ->
  sorted_by_Importance l w
  = (Ok (next_loc w), with_list w (next_loc w) (ranked w items)).
Proof.
  intros [Hl Hitems]. unfold sorted_by_Importance.
  erewrite pbind_Ok by (apply list_items_run; exact Hl).
  erewrite pbind_Ok
    by (apply (map_prog_read (fun x e => (get_Importance e, x))); exact Hitems).
  reflexivity.
Qed.

Lemma dump_list_run (w : world) (l : loc) (items : list loc) :
  is_entry_list w l items ->
  dump_list l w = (Ok (map (entry_at w) items), w).
Proof.
  intros [Hl Hitems]. unfold dump_list.
  erewrite pbind_Ok by (apply list_items_run; exact Hl).
  now apply map_prog_read_dict.
Qed.

Lemma with_list_entry_list (w : world) (items : list loc) :
  Forall (is_dict w) items ->
  is_entry_list (with_list w (next_loc w) items) (next_loc w) items.
Proof.
  intros Hitems. split.
  - unfold with_list. simpl. apply lookup_insert_eq.
  - eapply Forall_impl; [exact Hitems|]. intros r.
    apply extends_is_dict, extends_with_list.
Qed.

(** ** The descending stable sort *)

Section SortFacts.
Context {A : Type}.

Lemma insert_desc_Permutation (x : Q * A) l :
  Permutation (insert_desc x l) (x :: l).
Proof.
  induction l as [|y l IH]; simpl; [reflexivity|].
  destruct (Qle_bool (fst y) (fst x)); [reflexivity|].
  rewrite IH. apply perm_swap.
Qed.

Lemma sort_desc_Permutation (l : list (Q * A)) : Permutation (sort_desc l) l.
Proof.
  induction l as [|x l IH]; simpl; [reflexivity|].
  rewrite insert_desc_Permutation. now constructor.
Qed.

Lemma insert_desc_HdRel (a x : Q * A) l :
  key_ge a x -> HdRel key_ge a l -> HdRel key_ge a (insert_desc x l).
Proof.
  intros Hax Hal. destruct l as [|y l]; simpl; [now constructor|].
  destruct (Qle_bool (fst y) (fst x)); constructor; [assumption|].
  now inversion Hal.
Qed.

Lemma insert_desc_Sorted (x : Q * A) l :
  Sorted key_ge l -> Sorted key_ge (insert_desc x l).
Proof.
  induction 1 as [|y l Hl IH Hy]; simpl; [repeat constructor|].
  destruct (Qle_bool (fst y) (fst x)) eqn:E.
  - constructor; [now constructor|]. constructor.
    now apply Qle_bool_iff in E.
  - constructor; [assumption|].
    apply insert_desc_HdRel; [|assumption].
    unfold key_ge. apply Qlt_le_weak, Qnot_le_lt. intros Hle.
    apply Qle_bool_iff in Hle. congruence.
Qed.

Lemma sort_desc_Sorted (l : list (Q * A)) : Sorted key_ge (sort_desc l).
Proof.
  induction l as [|x l IH]; simpl; [constructor|].
  now apply insert_desc_Sorted.
Qed.

Lemma sort_desc_StronglySorted (l : list (Q * A)) :
  StronglySorted key_ge (sort_desc l).
Proof.
  apply Sorted_StronglySorted; [|apply sort_desc_Sorted].
  intros a b c Hab Hbc. unfold key_ge in *. now apply Qle_trans with (fst b).
Qed.

(** Stability: the items of any one key keep their order. *)
Lemma insert_desc_stable (q : Q) (x : Q * A) l :
  List.filter (fun y => Qeq_bool (fst y) q) (insert_desc x l)
  = List.filter (fun y => Qeq_bool (fst y) q) (x :: l).
Proof.
  induction l as [|y l IH]; simpl; [reflexivity|].
  destruct (Qle_bool (fst y) (fst x)) eqn:E; [reflexivity|].
  simpl. rewrite IH. simpl.
  destruct (Qeq_bool (fst x) q) eqn:Ex, (Qeq_bool (fst y) q) eqn:Ey;
    try reflexivity.
  exfalso. apply Qeq_bool_iff in Ex, Ey.
  assert (Hle : (fst y <= fst x)%Q) by (rewrite Ex, Ey; apply Qle_refl).
  apply Qle_bool_iff in Hle. congruence.
Qed.

Lemma sort_desc_stable (q : Q) (l : list (Q * A)) :
  List.filter (fun y => Qeq_bool (fst y) q) (sort_desc l)
  = List.filter (fun y => Qeq_bool (fst y) q) l.
Proof.
  induction l as [|x l IH]; simpl; [reflexivity|].
  rewrite insert_desc_stable. simpl. now rewrite IH.
Qed.

End SortFacts.

Lemma StronglySorted_before {A : Type} (R : A -> A -> Prop) (l : list A) a b :
  StronglySorted R l -> before a b l -> R a b.
Proof.
  intros Hs [l1 [l2 [l3 ->]]].
  induction l1 as [|x l1 IH]; simpl in Hs.
  - apply StronglySorted_inv in Hs. destruct Hs as [_ Hall].
    rewrite List.Forall_forall in Hall. apply Hall.
    apply in_or_app. right. now left.
  - apply StronglySorted_inv in Hs. now apply IH.
Qed.

Section RankedFacts.
Variable w : world.

Lemma keyed_snd items : map snd (keyed w items) = items.
Proof.
  unfold keyed. rewrite map_map. simpl. apply map_id.
Qed.

Lemma ranked_Permutation items : Permutation (ranked w items) items.
Proof.
  unfold ranked. fold (keyed w items).
  rewrite <- (keyed_snd items) at 2.
  apply Permutation_map, sort_desc_Permutation.
Qed.

Lemma sorted_keys items :
  Forall (fun kr => fst kr = importance_at w (snd kr)) (sort_desc (keyed w items)).
Proof.
  eapply Permutation_Forall.
  - symmetry. apply sort_desc_Permutation.
  - unfold keyed. apply List.Forall_forall. intros kr Hin.
    apply in_map_iff in Hin. destruct Hin as [r [<- _]]. reflexivity.
Qed.

Lemma ranked_sorted items :
  StronglySorted
    (fun a b => (importance_at w b <= importance_at w a)%Q) (ranked w items).
Proof.
  unfold ranked. fold (keyed w items).
  pose proof (sort_desc_StronglySorted (keyed w items)) as Hs.
  pose proof (sorted_keys items) as Hk.
  induction Hs as [|kr l Hs IH Hall]; simpl; [constructor|].
  apply Forall_cons_iff in Hk. destruct Hk as [Hkr Hk].
  constructor; [now apply IH|].
  rewrite List.Forall_forall in *. intros r Hin.
  apply in_map_iff in Hin. destruct Hin as [kr' [<- Hin]].
  specialize (Hall kr' Hin). unfold key_ge in Hall.
  now rewrite <- Hkr, <- (Hk kr' Hin).
Qed.

Lemma ranked_stable (q : Q) items :
  List.filter (fun r => Qeq_bool (importance_at w r) q) (ranked w items)
  = List.filter (fun r => Qeq_bool (importance_at w r) q) items.
Proof.
  assert (G : forall l : list (Q * loc),
             Forall (fun kr => fst kr = importance_at w (snd kr)) l ->
             List.filter (fun r => Qeq_bool (importance_at w r) q) (map snd l)
             = map snd (List.filter (fun y => Qeq_bool (fst y) q) l)).
  { induction 1 as [|kr l Hkr _ IH]; simpl; [reflexivity|].
    rewrite <- Hkr, IH. now destruct (Qeq_bool (fst kr) q). }
  unfold ranked. fold (keyed w items).
  rewrite (G _ (sorted_keys items)), sort_desc_stable.
  rewrite <- G.
  - now rewrite keyed_snd.
  - unfold keyed. apply List.Forall_forall. intros kr Hin.
    apply in_map_iff in Hin. destruct Hin as [r [<- _]]. reflexivity.
Qed.

End RankedFacts.

(** ** Running the pipeline *)

Section PipelineFacts.
Context {num : Type} `{Numeric num}.

Lemma ReACT_Extractor_run (w : world) (data : loc) (items : list loc)
    (df : DataFrame num) (month_n : Z) (write_output : bool)
    (features : list string) :
  is_entry_list w data items ->
  calculate_feature_differences df month_n feature_list = Ok features ->
  ReACT_Extractor data df month_n write_output w
  = (Ok (next_loc (with_list w (next_loc w) (kept w features items))),
     after_pipeline w items features write_output).
Proof.
  intros Hdata Hfeat. unfold ReACT_Extractor.
  pose proof Hdata as [_ Hitems].
  set (ks := kept w features items).
  set (w1 := with_list w (next_loc w) ks).
  assert (Hks : Forall (is_dict w) ks) by now apply Forall_kept.
  assert (H1 : is_entry_list w1 (next_loc w) ks)
    by now apply with_list_entry_list.
  assert (Hext1 : extends w w1) by apply extends_with_list.
  set (res := ranked w ks).
  assert (Hres : Forall (is_dict w) res).
  { eapply Permutation_Forall; [|exact Hks].
    symmetry. apply ranked_Permutation. }
  set (w2 := with_list w1 (next_loc w1) res).
  assert (Hext2 : extends w w2).
  { eapply extends_trans; [exact Hext1 | apply extends_with_list]. }
  erewrite pbind_Ok by (unfold lift; rewrite Hfeat; reflexivity).
  erewrite pbind_Ok by (apply filter_json_by_features_run; exact Hdata).
  erewrite pbind_Ok by (apply sorted_by_Importance_run; exact H1).
  rewrite (ranked_ext w w1) by assumption.
  fold ks w1 res w2.
  assert (H2 : is_entry_list w2 (next_loc w1) res).
  { split.
    - unfold w2, with_list. simpl. apply lookup_insert_eq.
    - eapply Forall_impl; [exact Hres|]. intros r.
      now apply extends_is_dict. }
  destruct write_output.
  - erewrite pbind_Ok.
    2:{ erewrite pbind_Ok by (apply dump_list_run; exact H2).
        erewrite pbind_Ok by reflexivity. reflexivity. }
    unfold ret, after_pipeline. fold ks w1 res w2. simpl.
    f_equal. f_equal. rewrite <- app_assoc. simpl. do 4 f_equal.
    apply map_ext_in. intros r Hin.
    rewrite List.Forall_forall in Hres.
    apply extends_entry_at; auto.
  - erewrite pbind_Ok by reflexivity.
    unfold ret, after_pipeline. fold ks w1 res w2. simpl.
    now rewrite app_nil_r.
Qed.

End PipelineFacts.

(** ** Programs that leave the existing objects alone *)

Lemma frame_bind {A B : Type} (c : prog A) (k : A -> prog B) :
  frame c -> (forall a, frame (k a)) -> frame (pbind c k).
Proof.
  intros Hc Hk w r w'. unfold pbind.
  destruct (c w) as [[a|e] w1] eqn:E.
  - intros Hrun. eapply extends_trans; [eapply Hc | eapply Hk]; eauto.
  - intros [= <- <-]. eapply Hc; eauto.
Qed.

Lemma touches_bind (l : loc) {A B : Type} (c : prog A) (k : A -> prog B) :
  touches l c -> (forall a, touches l (k a)) -> touches l (pbind c k).
Proof.
  intros Hc Hk w r w'. unfold pbind.
  destruct (c w) as [[a|e] w1] eqn:E.
  - intros Hrun x Hx. rewrite (Hk _ _ _ _ Hrun x Hx). eapply Hc; eauto.
  - intros [= <- <-]. eapply Hc; eauto.
Qed.

Lemma touches_ret (l : loc) {A : Type} (a : A) : touches l (ret a).
Proof. intros w r w' [= <- <-] x _. reflexivity. Qed.

Lemma touches_read_dict (l r : loc) : touches l (read_dict r).
Proof.
  intros w res w'. unfold read_dict.
  destruct (objects w !! r) as [[e|items]|]; intros [= <- <-]; reflexivity.
Qed.

Lemma touches_list_append (l x : loc) : touches l (list_append l x).
Proof.
  intros w res w'. unfold list_append.
  destruct (objects w !! l) as [[e|items]|]; intros [= <- <-] y Hy;
    try reflexivity.
  simpl. now rewrite lookup_insert_ne by congruence.
Qed.

Lemma touches_for_loop (l : loc) {A : Type} (items : list A)
    (body : A -> prog unit) :
  (forall x, touches l (body x)) -> touches l (for_loop items body).
Proof.
  intros Hbody. induction items as [|x items IH]; simpl.
  - apply touches_ret.
  - apply touches_bind; [apply Hbody | intros _; exact IH].
Qed.

Lemma frame_ret {A : Type} (a : A) : frame (ret a).
Proof. intros w r w' [= <- <-]. apply extends_refl. Qed.

Lemma frame_lift {A : Type} (r : result A) : frame (lift r).
Proof. intros w r' w' [= <- <-]. apply extends_refl. Qed.

Lemma frame_read_dict (r : loc) : frame (read_dict r).
Proof.
  intros w res w'. unfold read_dict.
  destruct (objects w !! r) as [[e|items]|]; intros [= <- <-];
    apply extends_refl.
Qed.

Lemma frame_list_items (l : loc) : frame (list_items l).
Proof.
  intros w res w'. unfold list_items.
  destruct (objects w !! l) as [[e|items]|]; intros [= <- <-];
    apply extends_refl.
Qed.

Lemma frame_new_list (items : list loc) : frame (new_list items).
Proof. intros w r w' [= <- <-]. apply extends_with_list. Qed.

Lemma frame_emit (e : event) : frame (emit e).
Proof. intros w r w' [= <- <-] x o Hx. exact Hx. Qed.

Lemma frame_map_prog {A B : Type} (f : A -> prog B) (l : list A) :
  (forall x, frame (f x)) -> frame (map_prog f l).
Proof.
  intros Hf. induction l as [|x l IH]; simpl.
  - apply frame_ret.
  - apply frame_bind; [apply Hf|]. intros y.
    apply frame_bind; [exact IH|]. intros ys. apply frame_ret.
Qed.

Lemma frame_filter_json_by_features (data : loc) (features : list string) :
  frame (filter_json_by_features data features).
Proof.
  intros w r w'. unfold filter_json_by_features.
  erewrite pbind_Ok by apply new_list_run.
  intros Hrun x o Hx.
  assert (Hne : x <> next_loc w) by (eapply next_loc_ne; eauto).
  revert Hrun.
  match goal with |- ?c _ = _ -> _ =>
    assert (Ht : touches (next_loc w) c)
  end.
  { apply touches_bind.
    - intros w0 r0 w0'. unfold list_items.
      destruct (objects w0 !! data) as [[e|its]|]; intros [= <- <-];
        reflexivity.
    - intros its. apply touches_bind; [|intros _; apply touches_ret].
      apply touches_for_loop. intros r0.
      apply touches_bind; [apply touches_read_dict|]. intros e. cbv zeta.
      match goal with |- context [if ?b then _ else _] => destruct b end.
      + apply touches_list_append.
      + apply touches_ret. }
  intros Hrun. rewrite (Ht _ _ _ Hrun x Hne).
  unfold with_list. simpl. now rewrite lookup_insert_ne by congruence.
Qed.

Lemma frame_sorted_by_Importance (l : loc) : frame (sorted_by_Importance l).
Proof.
  unfold sorted_by_Importance.
  apply frame_bind; [apply frame_list_items|]. intros items.
  apply frame_bind; [|intros keyed; apply frame_new_list].
  apply frame_map_prog. intros x.
  apply frame_bind; [apply frame_read_dict|]. intros e. apply frame_ret.
Qed.

Lemma frame_dump_list (l : loc) : frame (dump_list l).
Proof.
  unfold dump_list.
  apply frame_bind; [apply frame_list_items|]. intros items.
  apply frame_map_prog, frame_read_dict.
Qed.

Lemma frame_ReACT_Extractor {num : Type} `{Numeric num}
    (data : loc) (df : DataFrame num) (month_n : Z) (write_output : bool) :
  frame (ReACT_Extractor data df month_n write_output).
Proof.
  unfold ReACT_Extractor.
  apply frame_bind; [apply frame_lift|]. intros features.
  apply frame_bind; [apply frame_filter_json_by_features|]. intros filtered.
  apply frame_bind; [apply frame_sorted_by_Importance|]. intros sorted.
  apply frame_bind; [|intros _; apply frame_ret].
  destruct write_output; [|apply frame_ret].
  apply frame_bind; [apply frame_dump_list|]. intros doc.
  apply frame_bind; [apply frame_emit|]. intros _. apply frame_emit.
Qed.

(** * The claims about the selector and the pipeline *)

Lemma tokens_no_Features (e : entry) : Features e = None -> tokens e = [""].
Proof. unfold tokens, get_Features. now intros ->. Qed.

(** The tokens the selector computes differ from the tokens as specified
    for an entry without the key only, and there by the empty string. *)
Lemma tokens_as_specified_iff (e : entry) (t : string) :
  t <> "" -> (In t (tokens e) <-> In t (tokens_as_specified e)).
Proof.
  intros Ht. destruct (Features e) as [s|] eqn:E.
  - unfold tokens, tokens_as_specified, get_Features. now rewrite E.
  - rewrite (tokens_no_Features e E). unfold tokens_as_specified. rewrite E.
    simpl. split; [intros [<-|[]]; congruence | intros []].
Qed.

(** Property X17.  The selector returns a new list that holds, in their
    order, the entries of which at least one trimmed token of the feature
    string is equal to one of the names it is given (equality of strings,
    not containment).  When the empty string is not one of the names, as for
    every list of names the evaluator returns, an entry without the key
    [Features] is not kept, and the entries kept are those of which a token
    as specified is among the names. *)
Theorem select_keeps_entries_with_a_triggered_token
    (w : world) (data : loc) (items : list loc) (features : list string) :
  is_entry_list w data items ->
  exists l w' keep,
    filter_json_by_features data features w = (Ok l, w') /\
    objects w' !! l = Some (OList (List.filter keep items)) /\
    forall r e,
      In r items -> objects w !! r = Some (ODict e) ->
      (keep r = true <-> exists t, In t (tokens e) /\ In t features) /\
      (~ In "" features ->
       (keep r = true <->
        exists t, In t (tokens_as_specified e) /\ In t features) /\
       (Features e = None -> keep r = false)).
Proof.
  intros Hdata.
  exists (next_loc w), (with_list w (next_loc w) (kept w features items)),
         (fun r => selected features (entry_at w r)).
  split; [now apply filter_json_by_features_run|].
  split; [unfold with_list; simpl; apply lookup_insert_eq|].
  intros r e _ He.
  assert (Hat : entry_at w r = e) by (unfold entry_at; now rewrite He).
  rewrite Hat, selected_iff.
  split; [reflexivity|].
  intros Hno.
  assert (Hspec : (exists t, In t (tokens e) /\ In t features) <->
                  (exists t, In t (tokens_as_specified e) /\ In t features)).
  { split; intros [t [Ht Hin]]; exists t; (split; [|assumption]);
      apply (tokens_as_specified_iff e t); try assumption;
      intros ->; contradiction. }
  split; [exact Hspec|].
  intros Hnone.
  destruct (selected features e) eqn:Esel; [|reflexivity].
  exfalso. apply selected_iff, Hspec in Esel.
  destruct Esel as [t [Ht _]].
  unfold tokens_as_specified in Ht. rewrite Hnone in Ht. contradiction.
Qed.

(** Claim C3.  The list the pipeline returns is in descending order of
    [Importance] (zero for an entry without the key): of two entries, the one
    that stands first has an importance at least that of the other; and the
    entries of any one importance stand in the order they have among the
    kept entries. *)
Theorem extractor_result_sorted_stable
    {num : Type} `{Numeric num}
    (w : world) (data : loc) (items : list loc) (df : DataFrame num)
    (month_n : Z) (write_output : bool) (features : list string) :
  is_entry_list w data items ->
  calculate_feature_differences df month_n feature_list = Ok features ->
  exists l w' res,
    ReACT_Extractor data df month_n write_output w = (Ok l, w') /\
    objects w' !! l = Some (OList res) /\
    Permutation res (kept w features items) /\
    (forall a b, before a b res ->
       (get_Importance (entry_at w b) <= get_Importance (entry_at w a))%Q) /\
    (forall q,
       List.filter (fun r => Qeq_bool (get_Importance (entry_at w r)) q) res
       = List.filter (fun r => Qeq_bool (get_Importance (entry_at w r)) q)
                     (kept w features items)).
Proof.
  intros Hdata Hfeat.
  eexists _, _, (ranked w (kept w features items)).
  split; [exact (ReACT_Extractor_run w data items df month_n write_output
                  features Hdata Hfeat)|].
  split; [unfold after_pipeline, with_list; simpl; apply lookup_insert_eq|].
  split; [apply ranked_Permutation|].
  split.
  - intros a b Hab.
    apply (StronglySorted_before _ _ a b (ranked_sorted w _) Hab).
  - intros q. apply ranked_stable.
Qed.



(** Claim C8.  A run of the pipeline, whatever its outcome, leaves every
    object it found as it was: the list of reference entries and each entry.
    The list it returns is a new object that holds references to entries of
    the input list: those a filter keeps, in another order. *)
Theorem extractor_leaves_entries_unchanged
    {num : Type} `{Numeric num}
    (w : world) (data : loc) (df : DataFrame num) (month_n : Z)
    (write_output : bool) (r : result loc) (w' : world) :
  ReACT_Extractor data df month_n write_output w = (r, w') ->
  (forall x o, objects w !! x = Some o -> objects w' !! x = Some o) /\
  forall items l,
    is_entry_list w data items -> r = Ok l ->
    objects w !! l = None /\
    exists res keep,
      objects w' !! l = Some (OList res) /\
      Permutation res (List.filter keep items).
Proof.
  intros Hrun. split.
  - exact (frame_ReACT_Extractor data df month_n write_output w r w' Hrun).
  - intros items l Hdata ->.
    destruct (calculate_feature_differences df month_n feature_list)
      as [features|e] eqn:Efeat.
    + rewrite (ReACT_Extractor_run w data items df month_n write_output
                 features Hdata Efeat) in Hrun.
      injection Hrun as <- <-.
      set (w1 := with_list w (next_loc w) (kept w features items)).
      split.
      * destruct (objects w !! next_loc w1) as [o|] eqn:El; [|reflexivity].
        exfalso. apply (extends_with_list w (kept w features items)) in El.
        fold w1 in El. rewrite next_loc_fresh in El. discriminate.
      * exists (ranked w (kept w features items)),
               (fun r => selected features (entry_at w r)).
        split; [|apply ranked_Permutation].
        unfold after_pipeline, with_list. simpl. apply lookup_insert_eq.
    + unfold ReACT_Extractor in Hrun.
      erewrite pbind_Raise in Hrun by (unfold lift; rewrite Efeat; reflexivity).
      discriminate.
Qed.

(** * The [--all] branch *)

(** ** The months the loop visits *)

Lemma unique_by_In (l : list Z) z : In z (unique_by Z.eqb l) <-> In z l.
Proof.
  induction l as [|x l IH]; [simpl; tauto|].
  cbn [unique_by In]. rewrite filter_In, IH. split.
  - intros [->|[Hin _]]; auto.
  - intros [->|Hin]; [now left|].
    destruct (Z.eq_dec x z) as [->|Hne]; [now left|].
    right. split; [assumption|]. apply negb_true_iff. now apply Z.eqb_neq.
Qed.

Lemma unique_by_NoDup (l : list Z) : List.NoDup (unique_by Z.eqb l).
Proof.
  induction l as [|x l IH]; cbn [unique_by]; constructor.
  - rewrite filter_In. intros [_ Hx]. rewrite Z.eqb_refl in Hx. discriminate.
  - now apply List.NoDup_filter.
Qed.

Lemma insert_asc_Permutation (x : Z) l :
  Permutation (insert_asc Z.ltb x l) (x :: l).
Proof.
  induction l as [|y l IH]; simpl; [reflexivity|].
  destruct (Z.ltb y x); [|reflexivity].
  rewrite IH. apply perm_swap.
Qed.

Lemma sorted_asc_Permutation (l : list Z) : Permutation (sorted_asc Z.ltb l) l.
Proof.
  induction l as [|x l IH]; simpl; [reflexivity|].
  rewrite insert_asc_Permutation. now constructor.
Qed.

Lemma insert_asc_Sorted (x : Z) l :
  Sorted Z.le l -> Sorted Z.le (insert_asc Z.ltb x l).
Proof.
  induction 1 as [|y l Hl IH Hy]; simpl; [repeat constructor|].
  destruct (Z.ltb_spec y x).
  - constructor; [assumption|].
    destruct l as [|y' l]; simpl in *.
    + constructor. lia.
    + destruct (Z.ltb y' x); constructor; [now inversion Hy | lia].
  - constructor; [now constructor|]. now constructor.
Qed.

Lemma sorted_asc_Sorted (l : list Z) : Sorted Z.le (sorted_asc Z.ltb l).
Proof.
  induction l as [|x l IH]; simpl; [constructor|].
  now apply insert_asc_Sorted.
Qed.

Lemma StronglySorted_le_lt (l : list Z) :
  List.NoDup l -> StronglySorted Z.le l -> StronglySorted Z.lt l.
Proof.
  induction 2 as [|x l Hs IH Hall]; [constructor|].
  apply List.NoDup_cons_iff in H. destruct H as [Hx Hnd].
  constructor; [now apply IH|].
  rewrite List.Forall_forall in *. intros y Hy.
  specialize (Hall y Hy). assert (x <> y) by congruence. lia.
Qed.

Lemma months_of_In ms z : In z (months_of ms) <-> In z ms.
Proof.
  unfold months_of. rewrite <- (unique_by_In ms z).
  split; apply Permutation_in.
  - apply sorted_asc_Permutation.
  - symmetry. apply sorted_asc_Permutation.
Qed.

Lemma months_of_NoDup ms : List.NoDup (months_of ms).
Proof.
  unfold months_of. eapply Permutation_NoDup; [|apply unique_by_NoDup].
  symmetry. apply sorted_asc_Permutation.
Qed.

Lemma months_of_ascending ms : StronglySorted Z.lt (months_of ms).
Proof.
  apply StronglySorted_le_lt; [apply months_of_NoDup|].
  apply Sorted_StronglySorted; [|apply sorted_asc_Sorted].
  intros a b c. apply Z.le_trans.
Qed.

Lemma dict_set_new {V : Type} (d : dict Z V) (k : Z) (v : V) :
  ~ In k (dict_keys d) -> dict_set d k v = d ++ [(k, v)].
Proof.
  induction d as [|[k' v'] d IH]; simpl; [reflexivity|].
  intros Hk. destruct (decide (k' = k)) as [->|Hne]; [tauto|].
  f_equal. apply IH. tauto.
Qed.

(** ** Running the loop over the months *)

Section AllMonths.
Context {num : Type} `{Numeric num}.
Variables (w : world) (data : loc) (items : list loc) (df : DataFrame num).
Variable ms : list Z.
Hypothesis Hdata : is_entry_list w data items.
Hypothesis Hmonth : getitem df "month" = Ok (SInt ms).
Hypothesis Hcols : forall f, In f feature_list -> has_column df f.

Lemma features_for_run z :
  calculate_feature_differences df z feature_list = Ok (features_for df z).
Proof.
  rewrite calculate_feature_differences_eq.
  exact (evaluate_int_month df z feature_list ms Hmonth Hcols).
Qed.

Lemma month_result_dicts z : Forall (is_dict w) (month_result w items df z).
Proof.
  destruct Hdata as [_ Hitems]. unfold month_result.
  eapply Permutation_Forall; [symmetry; apply ranked_Permutation|].
  now apply Forall_kept.
Qed.

(** The single-month pipeline on the initial world. *)
Lemma single_month_run z write_output :
  exists l0 w0,
    ReACT_Extractor data df z write_output w = (Ok l0, w0) /\
    objects w0 !! l0 = Some (OList (month_result w items df z)) /\
    output w0 =
      output w ++
      (if write_output
       then [EWrite output_path (DocList (map (entry_at w) (month_result w items df z)));
             EPrint saved_message]
       else []).
Proof.
  eexists _, _.
  split; [exact (ReACT_Extractor_run w data items df z write_output
                   (features_for df z) Hdata (features_for_run z))|].
  split; [|reflexivity].
  unfold after_pipeline, with_list. simpl. apply lookup_insert_eq.
Qed.

(** The same pipeline later in the run, on a world that has grown. *)
Lemma later_month_run (wi : world) z :
  extends w wi ->
  exists l wi',
    ReACT_Extractor data df z false wi = (Ok l, wi') /\
    extends wi wi' /\
    output wi' = output wi /\
    objects wi' !! l = Some (OList (month_result w items df z)).
Proof.
  intros Hext. pose proof Hdata as [_ Hitems].
  pose proof (extends_entry_list w wi data items Hext Hdata) as Hdata'.
  eexists _, _.
  split; [exact (ReACT_Extractor_run wi data items df z false
                   (features_for df z) Hdata' (features_for_run z))|].
  split; [|split].
  - intros x o Hx. unfold after_pipeline. cbn [objects].
    apply extends_with_list, extends_with_list, Hx.
  - unfold after_pipeline. simpl. apply app_nil_r.
  - unfold after_pipeline, with_list. simpl. rewrite lookup_insert_eq.
    unfold month_result.
    rewrite (kept_ext w wi) by assumption.
    rewrite (ranked_ext w wi); [reflexivity | assumption |].
    now apply Forall_kept.
Qed.

Lemma results_in_extends wi wi' d :
  extends wi wi' -> results_in w items df wi d -> results_in w items df wi' d.
Proof.
  intros Hext Hd. eapply Forall_impl; [exact Hd|].
  intros item Hitem. now apply Hext.
Qed.

Lemma months_loop_run (months : list Z) :
  forall (d : dict Z loc) (wi : world),
    List.NoDup months ->
    (forall z, In z months -> ~ In z (dict_keys d)) ->
    extends w wi -> output wi = output w -> results_in w items df wi d ->
    exists d' wi',
      fold_prog (map (@IntScalar num) months)
        (fun m all_results =>
           let! month_n := lift (py_int m) in
           let! result_for_month :=
             ReACT_Extractor data df month_n false in
           let! key := lift (py_int m) in
           ret (dict_set all_results key result_for_month))
        d wi
      = (Ok d', wi') /\
      dict_keys d' = dict_keys d ++ months /\
      extends w wi' /\ output wi' = output w /\ results_in w items df wi' d'.
Proof.
  induction months as [|z months IH]; intros d wi Hnd Hnew Hext Hout Hd.
  - exists d, wi. simpl. rewrite app_nil_r. auto.
  - apply List.NoDup_cons_iff in Hnd. destruct Hnd as [Hz Hnd].
    destruct (later_month_run wi z Hext) as [l [wi1 [Hrun [Hext1 [Hout1 Hl]]]]].
    assert (Hkey : ~ In z (dict_keys d)) by (apply Hnew; now left).
    destruct (IH (d ++ [(z, l)]) wi1) as [d' [wi' [Hloop [Hkeys [Hext' [Hout' Hd']]]]]].
    + assumption.
    + intros z' Hin. unfold dict_keys. rewrite map_app, in_app_iff. simpl.
      intros [Hold|[->|[]]]; [|contradiction].
      apply (Hnew z'); [now right | assumption].
    + eapply extends_trans; eauto.
    + congruence.
    + apply Forall_app. split.
      * now apply (results_in_extends wi).
      * constructor; [exact Hl | constructor].
    + exists d', wi'. split; [|split; [|auto]].
      * cbn [map fold_prog].
        erewrite pbind_Ok; [exact Hloop|].
        erewrite pbind_Ok by reflexivity.
        erewrite pbind_Ok by exact Hrun.
        erewrite pbind_Ok by reflexivity.
        unfold ret. now rewrite dict_set_new.
      * rewrite Hkeys. unfold dict_keys. rewrite map_app, <- app_assoc.
        reflexivity.
Qed.

Lemma dump_map_run (wi : world) (d : dict Z loc) :
  extends w wi -> results_in w items df wi d ->
  dump_map d wi
  = (Ok (map (fun item => (fst item, map (entry_at w) (month_result w items df (fst item)))) d),
     wi).
Proof.
  intros Hext. unfold dump_map, dict_items.
  induction 1 as [|[z l] d Hl _ IH]; [reflexivity|].
  cbn [map_prog map fst snd] in *.
  assert (Hlist : is_entry_list wi l (month_result w items df z)).
  { split; [exact Hl|].
    eapply Forall_impl; [apply month_result_dicts|].
    intros r. now apply extends_is_dict. }
  erewrite pbind_Ok.
  2:{ erewrite pbind_Ok by (apply dump_list_run; exact Hlist). reflexivity. }
  erewrite pbind_Ok by exact IH.
  assert (E : map (entry_at wi) (month_result w items df z)
              = map (entry_at w) (month_result w items df z)).
  { apply map_ext_in. intros r Hin.
    apply extends_entry_at; [assumption|].
    pose proof (month_result_dicts z) as Hall.
    rewrite List.Forall_forall in Hall. auto. }
  unfold ret. now rewrite E.
Qed.

End AllMonths.

(** Claim C7.  In all-months mode, on a table whose [month] column holds
    integers, the loop visits the distinct months in ascending order; the
    keys of the mapping are exactly the months of the column; every month is
    mapped to the list the single-month pipeline returns for it when it writes
    nothing; and the only output is the mapping, written once at the end,
    each month with the entries the single-month pipeline would write. *)
Theorem all_months_mapping
    {num : Type} `{Numeric num}
    (w : world) (data : loc) (items : list loc) (df : DataFrame num)
    (ms : list Z) :
  is_entry_list w data items ->
  getitem df "month" = Ok (SInt ms) ->
  (forall f, In f feature_list -> has_column df f) ->
  exists (all_results : dict Z loc) (w' : world) (doc : list (Z * list entry)),
    main_all data df w = (Ok all_results, w') /\
    unique_sorted (SInt ms) = map IntScalar (dict_keys all_results) /\
    (forall z, In z (dict_keys all_results) <-> In z ms) /\
    StronglySorted Z.lt (dict_keys all_results) /\
    (forall z l, In (z, l) all_results ->
       exists l0 w0 res,
         ReACT_Extractor data df z false w = (Ok l0, w0) /\
         output w0 = output w /\
         objects w0 !! l0 = Some (OList res) /\
         objects w' !! l = Some (OList res)) /\
    output w' =
      output w ++ [EWrite output_path (DocMap doc); EPrint all_saved_message] /\
    map fst doc = dict_keys all_results /\
    (forall z es, In (z, es) doc ->
       exists l0 w0,
         ReACT_Extractor data df z true w = (Ok l0, w0) /\
         output w0 =
           output w ++ [EWrite output_path (DocList es); EPrint saved_message]).
Proof.
  intros Hdata Hmonth Hcols.
  destruct (months_loop_run w data items df ms Hdata Hmonth Hcols
              (months_of ms) [] w)
    as [d [w1 [Hloop [Hkeys [Hext [Hout Hres]]]]]].
  { apply months_of_NoDup. }
  { intros z _ []. }
  { apply extends_refl. }
  { reflexivity. }
  { constructor. }
  simpl in Hkeys.
  exists d.
  exists {| objects := objects w1;
            output := output w ++ [EWrite output_path
                        (DocMap (map (fun item =>
                           (fst item,
                            map (entry_at w) (month_result w items df (fst item)))) d));
                        EPrint all_saved_message] |}.
  eexists.
  split; [|split; [|split; [|split; [|split; [|split; [reflexivity|split]]]]]].
  - unfold main_all, all_months_results.
    erewrite pbind_Ok.
    2:{ erewrite pbind_Ok by (unfold lift; rewrite Hmonth; reflexivity).
        exact Hloop. }
    erewrite pbind_Ok by (apply (dump_map_run w data items df Hdata); assumption).
    unfold emit, pbind, ret. simpl. rewrite Hout, <- app_assoc. reflexivity.
  - now rewrite Hkeys.
  - intros z. rewrite Hkeys. apply months_of_In.
  - rewrite Hkeys. apply months_of_ascending.
  - intros z l Hin.
    destruct (single_month_run w data items df ms Hdata Hmonth Hcols z false)
      as [l0 [w0 [Hrun [Hl0 Hout0]]]].
    exists l0, w0, (month_result w items df z).
    split; [assumption|]. split; [now rewrite Hout0, app_nil_r|].
    split; [assumption|].
    unfold results_in in Hres. rewrite List.Forall_forall in Hres.
    apply (Hres (z, l) Hin).
  - rewrite map_map. reflexivity.
  - intros z es Hin. apply in_map_iff in Hin.
    destruct Hin as [[z' l] [[= <- <-] Hin]].
    destruct (single_month_run w data items df ms Hdata Hmonth Hcols z' true)
      as [l0 [w0 [Hrun [Hl0 Hout0]]]].
    exists l0, w0. split; assumption.
Qed.

(** * Further properties of the evaluator *)

#[global] Instance F64_nan : NumericNaN float.
Proof.
  split. intros x. simpl. rewrite leb_spec, sub_spec.
  change (Prim2SF PrimFloat.nan) with S754_nan.
  unfold SFleb, SF64sub. destruct (Prim2SF x); reflexivity.
Qed.

Lemma list_find_ext_in {A : Type} (f g : A -> bool) (l : list A) :
  (forall x, In x l -> f x = g x) -> List.find f l = List.find g l.
Proof.
  induction l as [|x l IH]; intros Hfg; simpl; [reflexivity|].
  rewrite (Hfg x) by now left.
  destruct (g x); [reflexivity|]. apply IH. intros y Hy. apply Hfg. now right.
Qed.

Lemma find_after_present {A : Type} (bad : A -> bool) (pre post : list A) x :
  (forall y, In y pre -> bad y = false) -> bad x = true ->
  List.find bad (pre ++ x :: post) = Some x.
Proof.
  intros Hpre Hx. induction pre as [|y pre IH]; simpl.
  - now rewrite Hx.
  - rewrite (Hpre y) by now left. apply IH. intros z Hz. apply Hpre. now right.
Qed.

Lemma find_filter_implied {A : Type} (p q : A -> bool) (l : list A) :
  (forall y, p y = true -> q y = true) ->
  List.find p (List.filter q l) = List.find p l.
Proof.
  intros Hpq. induction l as [|y l IH]; simpl; [reflexivity|].
  destruct (p y) eqn:Ep.
  - rewrite (Hpq y Ep). simpl. now rewrite Ep.
  - destruct (q y); simpl; [now rewrite Ep | assumption].
Qed.

Lemma find_dedup (p : string -> bool) (l : list string) :
  List.find p (dedup l) = List.find p l.
Proof.
  unfold dedup. induction l as [|x l IH]; [reflexivity|].
  cbn [unique_by List.find].
  destruct (p x) eqn:Ex; [reflexivity|].
  rewrite find_filter_implied; [exact IH|].
  intros y Hy. apply negb_true_iff, bool_decide_eq_false. congruence.
Qed.

Lemma dedup_NoDup (l : list string) : List.NoDup (dedup l).
Proof.
  unfold dedup. induction l as [|x l IH]; cbn [unique_by]; constructor.
  - rewrite filter_In. intros [_ Hx].
    rewrite bool_decide_eq_true_2 in Hx by reflexivity. discriminate.
  - now apply List.NoDup_filter.
Qed.

Lemma dedup_of_NoDup (l : list string) : List.NoDup l -> dedup l = l.
Proof.
  unfold dedup. induction 1 as [|x l Hx _ IH]; [reflexivity|].
  cbn [unique_by]. rewrite IH. f_equal.
  apply forallb_filter_id, forallb_forall. intros y Hy.
  apply negb_true_iff, bool_decide_eq_false. congruence.
Qed.

Lemma dedup_idempotent (l : list string) : dedup (dedup l) = dedup l.
Proof. apply dedup_of_NoDup, dedup_NoDup. Qed.

Section EvaluatorMore.
Context {num : Type} `{Numeric num}.

Lemma evaluate_Ok_In (df : DataFrame num) month_n fl r f :
  evaluate df month_n fl = Ok r -> In f r ->
  In f fl /\ triggered df month_n f = true /\ List.NoDup r.
Proof.
  intros Hr. rewrite (evaluate_Ok_eq _ _ _ _ Hr).
  intros Hin. pose proof Hin as Hin'. apply filter_In in Hin'.
  destruct Hin' as [Hd Ht]. split; [now apply In_dedup|].
  split; [assumption|]. apply List.NoDup_filter, dedup_NoDup.
Qed.

(** Property X1.  When a named feature column is absent, the evaluator raises
    the lookup error of the first absent name in the order of
    [feature_names], whether or not the table has a [month] column. *)
Theorem evaluate_reports_first_absent_feature
    (df : DataFrame num) (month_n : Z) (present : list string)
    (absent : string) (rest : list string) :
  (forall f, In f present -> has_column df f) ->
  ~ has_column df absent ->
  calculate_feature_differences df month_n (present ++ absent :: rest)
  = Raise (KeyError absent).
Proof.
  intros Hpresent Habsent.
  rewrite calculate_feature_differences_eq. unfold evaluate.
  rewrite (find_after_present (missing df) present rest absent).
  - reflexivity.
  - intros f Hin. apply missing_false. auto.
  - destruct (missing df absent) eqn:E; [reflexivity|].
    exfalso. now apply Habsent, missing_false.
Qed.

(** Property X2.  A name repeated in [feature_names] changes nothing: the
    evaluator returns what it returns for the list with every name kept at
    its first position only, and its result lists no name twice. *)
Theorem evaluate_ignores_repeated_names
    (df : DataFrame num) (month_n : Z) (feature_names : list string) :
  calculate_feature_differences df month_n feature_names
  = calculate_feature_differences df month_n (dedup feature_names)
  /\ forall r,
       calculate_feature_differences df month_n feature_names = Ok r ->
       List.NoDup r.
Proof.
  rewrite !calculate_feature_differences_eq. split.
  - unfold evaluate. rewrite find_dedup, dedup_idempotent.
    destruct (List.find (missing df) feature_names); [reflexivity|].
    destruct feature_names as [|f0 fl']; reflexivity.
  - intros r Hr. destruct r as [|f r]; [constructor|].
    apply (evaluate_Ok_In df month_n feature_names (f :: r) f Hr). now left.
Qed.

Lemma column_agree (df df' : DataFrame num) f :
  getitem df f = getitem df' f ->
  missing df f = missing df' f /\ column df f = column df' f.
Proof. intros Hf. unfold missing, column. now rewrite Hf. Qed.

(** Property X3.  The evaluator reads the [month] column and the named
    columns and nothing else: two tables that agree on these give the same
    result, whatever their other columns. *)
Theorem evaluate_reads_named_columns_only
    (df df' : DataFrame num) (month_n : Z) (feature_names : list string) :
  getitem df "month" = getitem df' "month" ->
  (forall f, In f feature_names -> getitem df f = getitem df' f) ->
  calculate_feature_differences df month_n feature_names
  = calculate_feature_differences df' month_n feature_names.
Proof.
  intros Hm Hcols. rewrite !calculate_feature_differences_eq. unfold evaluate.
  rewrite (list_find_ext_in (missing df) (missing df') feature_names)
    by (intros f Hin; apply column_agree; auto).
  destruct (List.find (missing df') feature_names); [reflexivity|].
  destruct feature_names as [|f0 fl']; [reflexivity|].
  destruct (column_agree df df' "month" Hm) as [_ Hmc].
  rewrite Hm.
  destruct (getitem df' "month") as [months|e]; [|reflexivity].
  rewrite !bind_Ok.
  destruct (window_check month_n months); [|reflexivity].
  rewrite !bind_Ok. f_equal. apply filter_ext_in. intros f Hin.
  apply (proj1 (In_dedup _ _)) in Hin.
  unfold triggered.
  destruct (column_agree df df' f (Hcols f Hin)) as [_ ->].
  now rewrite Hmc.
Qed.

Lemma no_valid_cell_mean (col : Series num) :
  no_valid_cell col -> series_mean col = num_nan.
Proof.
  destruct col as [l|l]; simpl.
  - now intros ->.
  - now intros ->.
Qed.

(** Property X4.  A feature whose column has no cell to average (the table
    has no rows, or the column holds NaN in every row) is never returned: its
    mean is NaN and the comparison with zero fails. *)
Theorem evaluate_skips_column_without_values
    `{!NumericNaN num}
    (df : DataFrame num) (month_n : Z) (feature_names : list string)
    (r : list string) (f : string) (col : Series num) :
  calculate_feature_differences df month_n feature_names = Ok r ->
  getitem df f = Ok col ->
  no_valid_cell col ->
  ~ In f r.
Proof.
  rewrite calculate_feature_differences_eq. intros Hr Hcol Hnone Hin.
  destruct (evaluate_Ok_In df month_n feature_names r f Hr Hin)
    as [_ [Ht _]].
  unfold triggered, difference, column in Ht. rewrite Hcol in Ht.
  rewrite (no_valid_cell_mean col Hnone), num_sub_nan_not_le in Ht.
  discriminate.
Qed.

Lemma getitem_shift_other k (df : DataFrame num) f :
  f <> "month" -> getitem (shift_months k df) f = getitem df f.
Proof.
  intros Hf. unfold getitem, shift_months.
  rewrite lookup_alter_ne by congruence. reflexivity.
Qed.

Lemma getitem_shift_month k (df : DataFrame num) :
  getitem (shift_months k df) "month" =
  match getitem df "month" with
  | Ok (SInt l) => Ok (SInt (map (fun z => z + k) l))
  | other => other
  end.
Proof.
  unfold getitem, shift_months. rewrite lookup_alter_eq.
  destruct (df !! "month") as [[l|l]|]; reflexivity.
Qed.

Lemma leb_shift (a b k : Z) : (a + k <=? b + k)%Z = (a <=? b)%Z.
Proof.
  destruct (Z.leb_spec a b), (Z.leb_spec (a + k) (b + k));
    try reflexivity; lia.
Qed.

Lemma in_window_shift k month_n (l : list Z) :
  in_window (num := num) (month_n + k) (SInt (map (fun z => z + k) l))
  = in_window month_n (SInt l).
Proof.
  simpl. rewrite map_map. apply map_ext. intros z.
  replace (month_n + k - 2) with (month_n - 2 + k) by lia.
  now rewrite !leb_shift.
Qed.

(** Property X5.  The window is relative to the target month: on a table
    whose [month] column holds integers (or is absent), and for feature names
    other than [month], adding [k] to every month and to [month_n] leaves the
    result as it was. *)
Theorem evaluate_month_shift
    (k : Z) (df : DataFrame num) (month_n : Z) (feature_names : list string) :
  ~ In "month" feature_names ->
  (forall l, getitem df "month" <> Ok (SNum l)) ->
  calculate_feature_differences (shift_months k df) (month_n + k) feature_names
  = calculate_feature_differences df month_n feature_names.
Proof.
  intros Hnot Hint. rewrite !calculate_feature_differences_eq. unfold evaluate.
  assert (Hother : forall f, In f feature_names ->
            getitem (shift_months k df) f = getitem df f).
  { intros f Hin. apply getitem_shift_other. congruence. }
  rewrite (list_find_ext_in (missing (shift_months k df)) (missing df))
    by (intros f Hin; apply column_agree; auto).
  destruct (List.find (missing df) feature_names); [reflexivity|].
  destruct feature_names as [|f0 fl']; [reflexivity|].
  pose proof (getitem_shift_month k df) as Hmonth.
  rewrite Hmonth.
  destruct (getitem df "month") as [[l|l]|e] eqn:Em.
  - rewrite !bind_Ok, !window_check_SInt, !bind_Ok.
    f_equal. apply filter_ext_in. intros f Hin.
    apply (proj1 (In_dedup _ _)) in Hin.
    unfold triggered, difference, window_of, column.
    rewrite Hmonth, Em, (Hother f Hin).
    now rewrite in_window_shift.
  - now contradiction (Hint l).
  - reflexivity.
Qed.

(** Property X18.  A target month too large for float64 is an error on a
    table whose [month] column holds float64 cells: once the named feature
    columns have been found, the comparison of the column with
    [month_n - 2] or with [month_n] raises [OverflowError].  (An int64
    [month] column is compared exactly and raises nothing.) *)
Theorem evaluate_float_month_overflow
    (df : DataFrame num) (month_n : Z) (feature_names : list string)
    (l : list num) :
  feature_names <> [] ->
  (forall f, In f feature_names -> has_column df f) ->
  getitem df "month" = Ok (SNum l) ->
  num_isinf (num_of_Z (month_n - 2)) = true \/
  num_isinf (num_of_Z month_n) = true ->
  calculate_feature_differences df month_n feature_names
  = Raise OverflowError.
Proof.
  intros Hne Hcols Hm Hinf.
  rewrite calculate_feature_differences_eq. unfold evaluate.
  destruct (List.find (missing df) feature_names) as [f|] eqn:Efind.
  { apply find_some in Efind. destruct Efind as [Hin Hf].
    apply Hcols, missing_false in Hin. congruence. }
  destruct feature_names as [|f0 fl']; [congruence|].
  rewrite Hm, bind_Ok. unfold window_check. simpl. unfold float_of_int.
  destruct (num_isinf (num_of_Z (month_n - 2))); [reflexivity|]. simpl.
  destruct Hinf as [Hinf|Hinf]; [discriminate|]. now rewrite Hinf.
Qed.

End EvaluatorMore.
(** * Further properties of the selector *)

(** ** Trimmed tokens *)

Lemma lstrip_starts_clean (s : string) : starts_clean (lstrip s).
Proof.
  induction s as [|c s IH]; simpl; [exact I|].
  destruct (isspace c) eqn:E; [exact IH | exact E].
Qed.

Lemma lstrip_clean (s : string) : starts_clean s -> lstrip s = s.
Proof. destruct s as [|c s]; simpl; [reflexivity|]. now intros ->. Qed.

Lemma rstrip_starts_clean (s : string) :
  starts_clean s -> starts_clean (rstrip s).
Proof.
  destruct s as [|c s]; simpl; [trivial|]. intros Hc.
  destruct (rstrip s); simpl; [now rewrite Hc | assumption].
Qed.

Lemma rstrip_cons_fixed (c : ascii) (t : string) :
  t <> EmptyString -> rstrip t = t -> rstrip (String c t) = String c t.
Proof.
  intros Ht Heq. simpl. rewrite Heq. destruct t; [contradiction | reflexivity].
Qed.

Lemma rstrip_idempotent (s : string) : rstrip (rstrip s) = rstrip s.
Proof.
  induction s as [|c s IH]; simpl; [reflexivity|].
  destruct (rstrip s) as [|d r] eqn:E.
  - destruct (isspace c) eqn:Ec; simpl; [reflexivity | now rewrite Ec].
  - apply rstrip_cons_fixed; [discriminate | exact IH].
Qed.

Lemma strip_idempotent (s : string) : strip (strip s) = strip s.
Proof.
  unfold strip.
  rewrite (lstrip_clean (rstrip (lstrip s))).
  - apply rstrip_idempotent.
  - apply rstrip_starts_clean, lstrip_starts_clean.
Qed.

Lemma split_not_nil (sep : ascii) (s : string) : split sep s <> [].
Proof.
  induction s as [|c s IH]; simpl; [discriminate|].
  destruct (Ascii.eqb c sep); [discriminate|].
  destruct (split sep s); [contradiction | discriminate].
Qed.

Lemma split_contains (sep : ascii) (s t : string) :
  In t (split sep s) -> contains sep t = false.
Proof.
  revert t. induction s as [|c s IH]; simpl; intros t.
  - intros [<-|[]]. reflexivity.
  - destruct (Ascii.eqb c sep) eqn:Ec.
    + intros [<-|Hin]; [reflexivity | now apply IH].
    + destruct (split sep s) as [|tok toks] eqn:Es.
      * intros [<-|[]]. simpl. now rewrite Ec.
      * intros [<-|Hin].
        -- simpl. rewrite Ec. apply IH. now left.
        -- apply IH. now right.
Qed.

Lemma lstrip_contains (c : ascii) (s : string) :
  contains c s = false -> contains c (lstrip s) = false.
Proof.
  induction s as [|d s IH]; simpl; [trivial|].
  intros Hd. apply orb_false_iff in Hd. destruct Hd as [Hd Hs].
  destruct (isspace d); [now apply IH|]. simpl. now rewrite Hd, Hs.
Qed.

Lemma rstrip_contains (c : ascii) (s : string) :
  contains c s = false -> contains c (rstrip s) = false.
Proof.
  induction s as [|d s IH]; simpl; [trivial|].
  intros Hd. apply orb_false_iff in Hd. destruct Hd as [Hd Hs].
  specialize (IH Hs).
  destruct (rstrip s) as [|e r].
  - destruct (isspace d); simpl; [reflexivity | now rewrite Hd].
  - simpl in *. now rewrite Hd, IH.
Qed.

(** A token is trimmed and holds no comma. *)
Lemma tokens_trimmed (e : entry) (t : string) :
  In t (tokens e) -> strip t = t /\ contains "," t = false.
Proof.
  unfold tokens. intros Hin. apply in_map_iff in Hin.
  destruct Hin as [raw [<- Hraw]]. split.
  - apply strip_idempotent.
  - unfold strip. apply rstrip_contains, lstrip_contains.
    now apply (split_contains "," (get_Features e)).
Qed.

Lemma selected_ext (features features' : list string) (e : entry) :
  (forall f, In f features <-> In f features') ->
  selected features e = selected features' e.
Proof.
  intros Hsame.
  destruct (selected features e) eqn:E1, (selected features' e) eqn:E2;
    try reflexivity; exfalso.
  - apply selected_iff in E1. destruct E1 as [t [Ht Hin]].
    assert (selected features' e = true)
      by (apply selected_iff; exists t; split; [|apply Hsame]; assumption).
    congruence.
  - apply selected_iff in E2. destruct E2 as [t [Ht Hin]].
    assert (selected features e = true)
      by (apply selected_iff; exists t; split; [|apply Hsame]; assumption).
    congruence.
Qed.

(** Property X6.  The selector depends on the triggered names as a set: two
    lists with the same members, in any order and with any repetitions, give
    the same run. *)
Theorem select_depends_on_name_set
    (w : world) (data : loc) (items : list loc)
    (features features' : list string) :
  is_entry_list w data items ->
  (forall f, In f features <-> In f features') ->
  filter_json_by_features data features w
  = filter_json_by_features data features' w.
Proof.
  intros Hdata Hsame.
  rewrite (filter_json_by_features_run w data items features Hdata).
  rewrite (filter_json_by_features_run w data items features' Hdata).
  assert (E : kept w features items = kept w features' items).
  { unfold kept. apply filter_ext. intros r. now apply selected_ext. }
  now rewrite E.
Qed.

(** Property X7.  Tokens are trimmed, triggered names are not: a name that
    begins or ends with whitespace, or that holds a comma, is equal to no
    token, so a selection by such names alone returns an empty list. *)
Theorem select_never_matches_untrimmed_names
    (w : world) (data : loc) (items : list loc) (features : list string) :
  is_entry_list w data items ->
  (forall f, In f features -> strip f <> f \/ contains "," f = true) ->
  exists l w',
    filter_json_by_features data features w = (Ok l, w') /\
    objects w' !! l = Some (OList []).
Proof.
  intros Hdata Hbad. eexists _, _.
  split; [exact (filter_json_by_features_run w data items features Hdata)|].
  assert (E : kept w features items = []).
  { clear Hdata. unfold kept.
    induction items as [|r items IH]; [reflexivity|].
    cbn [List.filter].
    destruct (selected features (entry_at w r)) eqn:Esel.
    - exfalso. apply selected_iff in Esel. destruct Esel as [t [Ht Hin]].
      destruct (tokens_trimmed _ _ Ht) as [Hstrip Hcomma].
      destruct (Hbad t Hin) as [Hne|Hc]; congruence.
    - exact IH. }
  rewrite E. unfold with_list. simpl. apply lookup_insert_eq.
Qed.

Lemma filter_idempotent {A : Type} (f : A -> bool) (l : list A) :
  List.filter f (List.filter f l) = List.filter f l.
Proof.
  induction l as [|x l IH]; simpl; [reflexivity|].
  destruct (f x) eqn:E; simpl; [rewrite E; now f_equal | assumption].
Qed.

Lemma kept_idempotent (w w' : world) features items :
  extends w w' -> Forall (is_dict w) items ->
  kept w' features (kept w features items) = kept w features items.
Proof.
  intros Hext Hitems.
  rewrite (kept_ext w w') by (try assumption; now apply Forall_kept).
  apply filter_idempotent.
Qed.

(** Property X8.  Selecting again changes nothing: the selector, run on the
    list it returned and with the same names, returns a list with the same
    entries in the same order. *)
Theorem select_again_keeps_everything
    (w : world) (data : loc) (items : list loc) (features : list string) :
  is_entry_list w data items ->
  exists l1 w1 l2 w2 ks,
    filter_json_by_features data features w = (Ok l1, w1) /\
    filter_json_by_features l1 features w1 = (Ok l2, w2) /\
    objects w1 !! l1 = Some (OList ks) /\
    objects w2 !! l2 = Some (OList ks) /\
    objects w2 !! l1 = Some (OList ks).
Proof.
  intros Hdata. pose proof Hdata as [_ Hitems].
  set (ks := kept w features items).
  set (w1 := with_list w (next_loc w) ks).
  assert (H1 : is_entry_list w1 (next_loc w) ks)
    by (apply with_list_entry_list; now apply Forall_kept).
  exists (next_loc w), w1, (next_loc w1), (with_list w1 (next_loc w1) ks), ks.
  split; [exact (filter_json_by_features_run w data items features Hdata)|].
  split.
  { rewrite (filter_json_by_features_run w1 (next_loc w) ks features H1).
    assert (E : kept w1 features ks = ks).
    { unfold ks. apply (kept_idempotent w w1); [|assumption].
      apply extends_with_list. }
    now rewrite E. }
  split; [apply H1|].
  split; [unfold with_list; simpl; apply lookup_insert_eq|].
  apply extends_with_list, H1.
Qed.

(** ** Sorting what is sorted *)

Lemma sort_desc_sorted_id {A : Type} (l : list (Q * A)) :
  StronglySorted key_ge l -> sort_desc l = l.
Proof.
  induction 1 as [|x l Hs IH Hall]; [reflexivity|].
  cbn [sort_desc fold_right]. fold (sort_desc l). rewrite IH.
  destruct l as [|y l]; [reflexivity|]. simpl.
  apply Forall_cons_iff in Hall. destruct Hall as [Hy _].
  unfold key_ge in Hy. apply Qle_bool_iff in Hy. now rewrite Hy.
Qed.

Lemma ranked_sorted_id (w : world) (items : list loc) :
  StronglySorted
    (fun a b => (importance_at w b <= importance_at w a)%Q) items ->
  ranked w items = items.
Proof.
  intros Hs. unfold ranked. fold (keyed w items).
  rewrite sort_desc_sorted_id; [apply keyed_snd|].
  unfold keyed. induction Hs as [|x l Hs IH Hall]; simpl; constructor.
  - exact IH.
  - rewrite List.Forall_forall in *. intros kr Hin.
    apply in_map_iff in Hin. destruct Hin as [r [<- Hr]].
    unfold key_ge. simpl. now apply Hall.
Qed.

(** Property X9.  Sorting leaves a list that is already in descending order
    of importance as it is: the new list holds the same entries in the same
    order, and the list that was sorted is still there, unchanged. *)
Theorem sorted_keeps_descending_list
    (w : world) (l : loc) (items : list loc) :
  is_entry_list w l items ->
  StronglySorted
    (fun a b => (get_Importance (entry_at w b)
                 <= get_Importance (entry_at w a))%Q) items ->
  exists l' w',
    sorted_by_Importance l w = (Ok l', w') /\
    l' <> l /\
    objects w' !! l' = Some (OList items) /\
    objects w' !! l = Some (OList items).
Proof.
  intros Hl Hs. exists (next_loc w), (with_list w (next_loc w) (ranked w items)).
  split; [exact (sorted_by_Importance_run w l items Hl)|].
  rewrite (ranked_sorted_id w items Hs).
  destruct Hl as [Hl _].
  split; [apply not_eq_sym; eapply next_loc_ne; eauto|].
  split; [unfold with_list; simpl; apply lookup_insert_eq|].
  now apply extends_with_list.
Qed.
(** * Further properties of the pipeline *)

Lemma after_pipeline_extends (w : world) items features write_output :
  extends w (after_pipeline w items features write_output).
Proof.
  intros x o Hx. unfold after_pipeline. cbn [objects].
  apply extends_with_list, extends_with_list, Hx.
Qed.

Lemma after_pipeline_result (w : world) items features write_output :
  objects (after_pipeline w items features write_output)
    !! next_loc (with_list w (next_loc w) (kept w features items))
  = Some (OList (ranked w (kept w features items))).
Proof. unfold after_pipeline, with_list. simpl. apply lookup_insert_eq. Qed.

Lemma ranked_dicts (w : world) items :
  Forall (is_dict w) items -> Forall (is_dict w) (ranked w items).
Proof.
  intros Hitems. eapply Permutation_Forall; [|exact Hitems].
  symmetry. apply ranked_Permutation.
Qed.

Section PipelineMore.
Context {num : Type} `{Numeric num}.

Lemma ReACT_Extractor_raise
    (w : world) (data : loc) (df : DataFrame num) (month_n : Z)
    (write_output : bool) (e : exn) :
  calculate_feature_differences df month_n feature_list = Raise e ->
  ReACT_Extractor data df month_n write_output w = (Raise e, w).
Proof.
  intros Hfeat. unfold ReACT_Extractor.
  apply pbind_Raise. unfold lift. now rewrite Hfeat.
Qed.

(** Property X10.  [write_output] changes the output and nothing else: when
    the pipeline returns without it and returns with it, the two runs return
    the same reference and leave the same objects; the run without it leaves
    the output untouched, and the run with it has added two events, the file
    holding the entries of the returned list in their order and the
    message. *)
Theorem write_output_only_adds_output
    (w : world) (data : loc) (items : list loc) (df : DataFrame num)
    (month_n : Z) (l_quiet l_loud : loc) (w_quiet w_loud : world) :
  is_entry_list w data items ->
  ReACT_Extractor data df month_n false w = (Ok l_quiet, w_quiet) ->
  ReACT_Extractor data df month_n true w = (Ok l_loud, w_loud) ->
  l_loud = l_quiet /\
  objects w_loud = objects w_quiet /\
  output w_quiet = output w /\
  exists es,
    output w_loud
      = output w ++ [EWrite output_path (DocList es); EPrint saved_message] /\
    dump_list l_quiet w_quiet = (Ok es, w_quiet).
Proof.
  intros Hdata Hquiet Hloud. pose proof Hdata as [_ Hitems].
  destruct (calculate_feature_differences df month_n feature_list)
    as [features|e] eqn:Hfeat.
  2:{ rewrite (ReACT_Extractor_raise w data df month_n false e Hfeat) in Hquiet.
      discriminate. }
  rewrite (ReACT_Extractor_run w data items df month_n false features
             Hdata Hfeat) in Hquiet.
  rewrite (ReACT_Extractor_run w data items df month_n true features
             Hdata Hfeat) in Hloud.
  injection Hquiet as <- <-. injection Hloud as <- <-.
  set (res := ranked w (kept w features items)).
  split; [reflexivity|]. split; [reflexivity|].
  split; [unfold after_pipeline; simpl; apply app_nil_r|].
  exists (map (entry_at w) res).
  split; [reflexivity|].
  assert (Hres : Forall (is_dict w) res)
    by (apply ranked_dicts; now apply Forall_kept).
  pose proof (after_pipeline_extends w items features false) as Hext.
  rewrite (dump_list_run (after_pipeline w items features false) _ res).
  - do 2 f_equal. apply map_ext_in. intros r Hin.
    apply extends_entry_at; [assumption|].
    rewrite List.Forall_forall in Hres. auto.
  - split; [apply after_pipeline_result|].
    eapply Forall_impl; [exact Hres|]. intros r. now apply extends_is_dict.
Qed.

(** Property X11.  The pipeline returns only entries that list a tracked
    feature: every entry of the returned list has, among its trimmed tokens,
    one of the six tracked names. *)
Theorem extractor_returns_tracked_entries_only
    (w : world) (data : loc) (items : list loc) (df : DataFrame num)
    (month_n : Z) (write_output : bool) (l : loc) (w' : world)
    (res : list loc) :
  is_entry_list w data items ->
  ReACT_Extractor data df month_n write_output w = (Ok l, w') ->
  objects w' !! l = Some (OList res) ->
  forall r, In r res ->
    exists e t,
      objects w !! r = Some (ODict e) /\ In t (tokens e) /\ In t feature_list.
Proof.
  intros Hdata Hrun Hl r Hin.
  destruct (calculate_feature_differences df month_n feature_list)
    as [features|e] eqn:Efeat.
  - rewrite (ReACT_Extractor_run w data items df month_n write_output
               features Hdata Efeat) in Hrun.
    injection Hrun as <- <-.
    rewrite after_pipeline_result in Hl. injection Hl as <-.
    apply (Permutation_in _ (ranked_Permutation w _)) in Hin.
    apply filter_In in Hin. destruct Hin as [Hitem Hsel].
    destruct Hdata as [_ Hitems]. rewrite List.Forall_forall in Hitems.
    destruct (Hitems r Hitem) as [e He].
    assert (Hat : entry_at w r = e) by (unfold entry_at; now rewrite He).
    rewrite Hat in Hsel. apply selected_iff in Hsel.
    destruct Hsel as [t [Ht Hf]]. exists e, t.
    split; [assumption|]. split; [assumption|].
    rewrite calculate_feature_differences_eq in Efeat.
    exact (evaluate_incl df month_n feature_list features Efeat t Hf).
  - rewrite (ReACT_Extractor_raise w data df month_n
               write_output e Efeat) in Hrun. discriminate.
Qed.

End PipelineMore.

(** ** Runs that write nothing *)

Lemma pbind_inv {A B : Type} (c : prog A) (k : A -> prog B) w r w' :
  pbind c k w = (r, w') ->
  (exists e, c w = (Raise e, w') /\ r = Raise e) \/
  (exists a w1, c w = (Ok a, w1) /\ k a w1 = (r, w')).
Proof.
  unfold pbind. destruct (c w) as [[a|e] w1].
  - intros Hk. right. eauto.
  - intros [= <- <-]. left. eauto.
Qed.

Lemma silent_bind {A B : Type} (c : prog A) (k : A -> prog B) :
  silent c -> (forall a, silent (k a)) -> silent (pbind c k).
Proof.
  intros Hc Hk w r w' Hrun.
  destruct (pbind_inv c k w r w' Hrun) as [[e [Hce _]]|[a [w1 [Hca Hka]]]].
  - eapply Hc; eauto.
  - rewrite (Hk a _ _ _ Hka). eapply Hc; eauto.
Qed.

Lemma silent_ret {A : Type} (a : A) : silent (ret a).
Proof. intros w r w' [= <- <-]. reflexivity. Qed.

Lemma silent_lift {A : Type} (r : result A) : silent (lift r).
Proof. intros w r' w' [= <- <-]. reflexivity. Qed.

Lemma silent_new_list (items : list loc) : silent (new_list items).
Proof. intros w r w' [= <- <-]. reflexivity. Qed.

Lemma silent_list_items (l : loc) : silent (list_items l).
Proof.
  intros w r w'. unfold list_items.
  destruct (objects w !! l) as [[e|items]|]; intros [= <- <-]; reflexivity.
Qed.

Lemma silent_read_dict (x : loc) : silent (read_dict x).
Proof.
  intros w r w'. unfold read_dict.
  destruct (objects w !! x) as [[e|items]|]; intros [= <- <-]; reflexivity.
Qed.

Lemma silent_list_append (l x : loc) : silent (list_append l x).
Proof.
  intros w r w'. unfold list_append.
  destruct (objects w !! l) as [[e|items]|]; intros [= <- <-]; reflexivity.
Qed.

Lemma silent_for_loop {A : Type} (items : list A) (body : A -> prog unit) :
  (forall x, silent (body x)) -> silent (for_loop items body).
Proof.
  intros Hbody. induction items as [|x items IH]; simpl.
  - apply silent_ret.
  - apply silent_bind; [apply Hbody | intros _; exact IH].
Qed.

Lemma silent_map_prog {A B : Type} (f : A -> prog B) (l : list A) :
  (forall x, silent (f x)) -> silent (map_prog f l).
Proof.
  intros Hf. induction l as [|x l IH]; simpl.
  - apply silent_ret.
  - apply silent_bind; [apply Hf|]. intros y.
    apply silent_bind; [exact IH|]. intros ys. apply silent_ret.
Qed.

Lemma silent_fold_prog {A S : Type} (l : list A) (body : A -> S -> prog S) :
  (forall x s, silent (body x s)) -> forall s, silent (fold_prog l body s).
Proof.
  intros Hbody. induction l as [|x l IH]; intros s; simpl.
  - apply silent_ret.
  - apply silent_bind; [apply Hbody | intros s'; apply IH].
Qed.

Lemma silent_filter_json_by_features (data : loc) (features : list string) :
  silent (filter_json_by_features data features).
Proof.
  unfold filter_json_by_features.
  apply silent_bind; [apply silent_new_list|]. intros filtered.
  apply silent_bind; [apply silent_list_items|]. intros items.
  apply silent_bind; [|intros _; apply silent_ret].
  apply silent_for_loop. intros x.
  apply silent_bind; [apply silent_read_dict|]. intros e. cbv zeta.
  match goal with |- context [if ?b then _ else _] => destruct b end.
  - apply silent_list_append.
  - apply silent_ret.
Qed.

Lemma silent_sorted_by_Importance (l : loc) : silent (sorted_by_Importance l).
Proof.
  unfold sorted_by_Importance.
  apply silent_bind; [apply silent_list_items|]. intros items.
  apply silent_bind; [|intros keyed; apply silent_new_list].
  apply silent_map_prog. intros x.
  apply silent_bind; [apply silent_read_dict|]. intros e. apply silent_ret.
Qed.

Section QuietRuns.
Context {num : Type} `{Numeric num}.

Lemma silent_ReACT_Extractor_quiet (data : loc) (df : DataFrame num) month_n :
  silent (ReACT_Extractor data df month_n false).
Proof.
  unfold ReACT_Extractor.
  apply silent_bind; [apply silent_lift|]. intros features.
  apply silent_bind; [apply silent_filter_json_by_features|]. intros filtered.
  apply silent_bind; [apply silent_sorted_by_Importance|]. intros sorted.
  apply silent_bind; [apply silent_ret | intros _; apply silent_ret].
Qed.

Lemma silent_all_months_results (data : loc) (df : DataFrame num) :
  silent (all_months_results data df).
Proof.
  unfold all_months_results.
  apply silent_bind; [apply silent_lift|]. intros months.
  apply silent_fold_prog. intros m d.
  apply silent_bind; [apply silent_lift|]. intros month_n.
  apply silent_bind; [apply silent_ReACT_Extractor_quiet|]. intros res.
  apply silent_bind; [apply silent_lift|]. intros key. apply silent_ret.
Qed.

(** Property X12.  The errors of the computation come before the write:
    when the pipeline fails without [write_output] (in the evaluator, in the
    selector or in the sort), it fails in the same way with [write_output],
    with the same error, and the output is as it was before the run: the
    file has not been opened. *)
Theorem extractor_failure_writes_nothing
    (w : world) (data : loc) (df : DataFrame num) (month_n : Z)
    (e : exn) (w' : world) :
  ReACT_Extractor data df month_n false w = (Raise e, w') ->
  ReACT_Extractor data df month_n true w = (Raise e, w') /\
  output w' = output w.
Proof.
  intros Hrun.
  split; [|exact (silent_ReACT_Extractor_quiet data df month_n _ _ _ Hrun)].
  unfold ReACT_Extractor in *.
  apply pbind_inv in Hrun.
  destruct Hrun as [[e1 [Hc [= <-]]]|[features [w1 [Hc1 Hrun]]]];
    [now apply pbind_Raise|].
  erewrite pbind_Ok by exact Hc1.
  apply pbind_inv in Hrun.
  destruct Hrun as [[e2 [Hc [= <-]]]|[filtered [w2 [Hc2 Hrun]]]];
    [now apply pbind_Raise|].
  erewrite pbind_Ok by exact Hc2.
  apply pbind_inv in Hrun.
  destruct Hrun as [[e3 [Hc [= <-]]]|[sorted [w3 [Hc3 Hrun]]]];
    [now apply pbind_Raise|].
  discriminate.
Qed.

(** Property X13.  All-months mode writes after the loop over the months
    and not before: when the loop fails, at whatever month, all-months mode
    fails with the same error and the output is as it was before the run:
    the file has not been opened. *)
Theorem all_months_failure_writes_nothing
    (w : world) (data : loc) (df : DataFrame num) (e : exn) (w' : world) :
  all_months_results data df w = (Raise e, w') ->
  main_all data df w = (Raise e, w') /\
  output w' = output w.
Proof.
  intros Hloop. split.
  - unfold main_all. now apply pbind_Raise.
  - exact (silent_all_months_results data df _ _ _ Hloop).
Qed.

End QuietRuns.

(** ** Runs after runs *)

Section Reruns.
Context {num : Type} `{Numeric num}.

(** Property X14.  Running the pipeline again gives the same entries: a
    second run, on the world the first one left and with either setting of
    [write_output], returns a new list with the same entries in the same
    order, and the list the first run returned is still there, unchanged. *)
Theorem extractor_rerun_same_entries
    (w : world) (data : loc) (items : list loc) (df : DataFrame num)
    (month_n : Z) (first second : bool) (features : list string) :
  is_entry_list w data items ->
  calculate_feature_differences df month_n feature_list = Ok features ->
  exists l1 w1 l2 w2 res,
    ReACT_Extractor data df month_n first w = (Ok l1, w1) /\
    ReACT_Extractor data df month_n second w1 = (Ok l2, w2) /\
    l2 <> l1 /\
    objects w1 !! l1 = Some (OList res) /\
    objects w2 !! l1 = Some (OList res) /\
    objects w2 !! l2 = Some (OList res).
Proof.
  intros Hdata Hfeat. pose proof Hdata as [_ Hitems].
  set (res := ranked w (kept w features items)).
  set (w1 := after_pipeline w items features first).
  assert (Hext : extends w w1) by apply after_pipeline_extends.
  pose proof (extends_entry_list w w1 data items Hext Hdata) as Hdata1.
  set (l1 := next_loc (with_list w (next_loc w) (kept w features items))).
  set (l2 := next_loc (with_list w1 (next_loc w1) (kept w1 features items))).
  assert (H1 : objects w1 !! l1 = Some (OList res))
    by apply after_pipeline_result.
  exists l1, w1, l2, (after_pipeline w1 items features second), res.
  split; [exact (ReACT_Extractor_run w data items df month_n first features
                   Hdata Hfeat)|].
  split; [exact (ReACT_Extractor_run w1 data items df month_n second features
                   Hdata1 Hfeat)|].
  split.
  { intros Heq.
    pose proof (extends_with_list w1 (kept w1 features items) l1 _ H1) as Hin.
    rewrite <- Heq in Hin. unfold l2 in Hin.
    rewrite next_loc_fresh in Hin. discriminate. }
  split; [exact H1|].
  split; [apply after_pipeline_extends, H1|].
  unfold l2. rewrite after_pipeline_result. do 2 f_equal.
  rewrite (kept_ext w w1) by assumption.
  apply ranked_ext; [assumption | now apply Forall_kept].
Qed.

(** ** The two modes of [main] *)

Lemma main_single_run (w : world) (data : loc) (items : list loc)
    (df : DataFrame num) (month : Z) (features : list string) :
  is_entry_list w data items ->
  calculate_feature_differences df month feature_list = Ok features ->
  main_single data df month w
  = (Ok (map (entry_at w) (ranked w (kept w features items))),
     after_pipeline w items features true).
Proof.
  intros Hdata Hfeat. pose proof Hdata as [_ Hitems]. unfold main_single.
  erewrite pbind_Ok
    by exact (ReACT_Extractor_run w data items df month true features
                Hdata Hfeat).
  set (res := ranked w (kept w features items)).
  assert (Hres : Forall (is_dict w) res)
    by (apply ranked_dicts; now apply Forall_kept).
  pose proof (after_pipeline_extends w items features true) as Hext.
  rewrite (dump_list_run (after_pipeline w items features true) _ res).
  - do 2 f_equal. apply map_ext_in. intros r Hin.
    apply extends_entry_at; [assumption|].
    rewrite List.Forall_forall in Hres. auto.
  - split; [apply after_pipeline_result|].
    eapply Forall_impl; [exact Hres|]. intros r. now apply extends_is_dict.
Qed.

Lemma main_all_run (w : world) (data : loc) (items : list loc)
    (df : DataFrame num) (ms : list Z) :
  is_entry_list w data items ->
  getitem df "month" = Ok (SInt ms) ->
  (forall f, In f feature_list -> has_column df f) ->
  exists (d : dict Z loc) (w' : world),
    main_all data df w = (Ok d, w') /\
    dict_keys d = months_of ms /\
    output w' =
      output w ++
      [EWrite output_path
         (DocMap (map (fun z => (z, map (entry_at w) (month_result w items df z)))
                      (months_of ms)));
       EPrint all_saved_message].
Proof.
  intros Hdata Hmonth Hcols.
  destruct (months_loop_run w data items df ms Hdata Hmonth Hcols
              (months_of ms) [] w)
    as [d [w1 [Hloop [Hkeys [Hext [Hout Hres]]]]]].
  { apply months_of_NoDup. }
  { intros z _ []. }
  { apply extends_refl. }
  { reflexivity. }
  { constructor. }
  simpl in Hkeys.
  exists d. eexists. split; [|split; [exact Hkeys|]].
  - unfold main_all, all_months_results.
    erewrite pbind_Ok.
    2:{ erewrite pbind_Ok by (unfold lift; rewrite Hmonth; reflexivity).
        exact Hloop. }
    erewrite pbind_Ok
      by (apply (dump_map_run w data items df Hdata); assumption).
    unfold emit, pbind, ret. simpl. rewrite Hout, <- app_assoc. reflexivity.
  - simpl. do 4 f_equal. rewrite <- Hkeys. unfold dict_keys.
    now rewrite map_map.
Qed.

(** Property X15.  The two modes agree: for a month of the table, the entries
    that single-month mode prints are the entries it writes to the file, and
    they are the entries that all-months mode writes under that month. *)
Theorem single_month_agrees_with_all_months
    (w : world) (data : loc) (items : list loc) (df : DataFrame num)
    (ms : list Z) (month : Z) :
  is_entry_list w data items ->
  getitem df "month" = Ok (SInt ms) ->
  (forall f, In f feature_list -> has_column df f) ->
  In month ms ->
  exists es w1 d w2 doc,
    main_single data df month w = (Ok es, w1) /\
    output w1
      = output w ++ [EWrite output_path (DocList es); EPrint saved_message] /\
    main_all data df w = (Ok d, w2) /\
    output w2
      = output w ++ [EWrite output_path (DocMap doc);
                     EPrint all_saved_message] /\
    In (month, es) doc.
Proof.
  intros Hdata Hmonth Hcols Hin.
  destruct (main_all_run w data items df ms Hdata Hmonth Hcols)
    as [d [w2 [Hall [Hkeys Hout]]]].
  pose proof (features_for_run df ms Hmonth Hcols month) as Hfeat.
  eexists _, _, d, w2, _.
  split; [exact (main_single_run w data items df month _ Hdata Hfeat)|].
  split; [reflexivity|].
  split; [exact Hall|].
  split; [exact Hout|].
  apply in_map_iff. exists month. split; [reflexivity|].
  now apply months_of_In.
Qed.

(** Property X16.  On a table without rows, all-months mode has no month to
    visit: it reads no entry, looks up no feature column and writes the
    empty mapping, whether or not the tracked columns are there. *)
Theorem all_months_on_empty_table
    (w : world) (data : loc) (df : DataFrame num) (months : Series num) :
  getitem df "month" = Ok months ->
  nrows_of months = 0%nat ->
  main_all data df w
  = (Ok [],
     {| objects := objects w;
        output := output w ++ [EWrite output_path (DocMap []);
                               EPrint all_saved_message] |}).
Proof.
  intros Hmonth Hrows.
  assert (Hnone : unique_sorted months = []).
  { destruct months as [l|l]; simpl in Hrows;
      apply length_zero_iff_nil in Hrows; now subst. }
  unfold main_all, all_months_results.
  erewrite pbind_Ok.
  2:{ erewrite pbind_Ok by (unfold lift; rewrite Hmonth; reflexivity).
      rewrite Hnone. reflexivity. }
  unfold dump_map, dict_items, emit, pbind, ret. simpl.
  now rewrite <- app_assoc.
Qed.

End Reruns.

(** * Concrete runs *)

Lemma example_world_entries :
  is_entry_list example_world 4%nat [0; 1; 2; 3]%nat.
Proof.
  split; [reflexivity|].
  repeat constructor; eexists; reflexivity.
Defined.

Example f64_of_Z_9 : F64.of_Z 9 = 9%float.
Proof. reflexivity. Qed.

Example f64_absorbs : (1e16 + 1)%float = 1e16%float.
Proof. reflexivity. Qed.

Example f64_to_Z_trunc : F64.to_Z (-9.75)%float = Some (-9).
Proof. reflexivity. Qed.

Example split_example :
  split "," "a, b ,,c" = ["a"; " b "; ""; "c"].
Proof. reflexivity. Qed.

Example strip_example : strip "  t_graph density  " = "t_graph density".
Proof. reflexivity. Qed.

Example example_triggers :
  calculate_feature_differences example_table 9 ["t_graph_density"]
  = Ok ["t_graph_density"].
Proof. reflexivity. Qed.

(** Eight cells are added two by two: the two large cells cancel before
    they can absorb the small ones.  (Added from left to right, the same
    cells give zero.) *)
Example pairwise_sum_eight :
  float_sum [0.25; 0.03125; -9007199254740992; 9007199254740992;
             0; 0; 0; 0]%float
    = 0.28125%float /\
  fold_left PrimFloat.add
    [0.25; 0.03125; -9007199254740992; 9007199254740992; 0; 0; 0; 0]%float
    0%float
    = 0%float /\
  series_mean (SNum [0.25; 0.03125; -9007199254740992; 9007199254740992;
                     0; 0; 0; 0]%float)
    = 0.03515625%float.
Proof. repeat split; reflexivity. Qed.

Example falling_triggers :
  calculate_feature_differences falling_table 9 feature_list
  = Ok ["t_graph_density"].
Proof. reflexivity. Qed.

#[local] Set Warnings "-inexact-float".

(** The rounded sums behind the two runs on [rounding_table]: the window sum
    is the same, the mean over all rows depends on the order of the rows. *)
Example rounding_table_sums :
  series_sum (window_of 9 (SInt [7; 8; 9; 1])
                (SNum [0.1; 0.2; 0.3; 1.8]%float))
    = NumScalar 0.6000000000000001%float /\
  series_sum (window_of 9 (SInt [7; 8; 1; 9])
                (SNum [0.1; 0.2; 1.8; 0.3]%float))
    = NumScalar 0.6000000000000001%float /\
  series_mean (SNum [0.1; 0.2; 0.3; 1.8]%float) = 0.6000000000000001%float /\
  series_mean (SNum [0.1; 0.2; 1.8; 0.3]%float) = 0.6%float.
Proof. repeat split; reflexivity. Qed.

#[local] Set Warnings "+inexact-float".

(** ** Counterexamples *)

(** Claim C10 as stated fails on binary64 columns: exchanging the last two
    rows of [rounding_table] changes the rounded mean of the column, and with
    it the result. *)
Lemma evaluate_row_order_binary64 :
  let p := [0; 1; 3; 2]%nat in
  has_rows 4 rounding_table /\
  Permutation p (seq 0 4) /\
  calculate_feature_differences rounding_table 9 ["t_graph_density"]
    = Ok ["t_graph_density"] /\
  calculate_feature_differences (take_rows p rounding_table) 9
      ["t_graph_density"]
    = Ok [] /\
  calculate_feature_differences (take_rows p rounding_table) 9
      ["t_graph_density"]
    <> calculate_feature_differences rounding_table 9 ["t_graph_density"].
Proof.
  intros p. split; [apply has_rows_list_to_map; repeat constructor|].
  split.
  { unfold p. simpl. do 2 apply perm_skip. apply perm_swap. }
  split; [vm_compute; reflexivity|].
  split; [vm_compute; reflexivity|].
  vm_compute. discriminate.
Qed.


(** ** The theorems at concrete inputs *)

Lemma tracked_columns_present (df : DataFrame float) :
  Forall (fun f => missing df f = false) feature_list ->
  forall f, In f feature_list -> has_column df f.
Proof.
  intros Hall f Hin. apply missing_false.
  rewrite List.Forall_forall in Hall. now apply Hall.
Defined.


Lemma evaluate_within_tracked_features_witness :
  calculate_feature_differences falling_table 9 feature_list
    = Ok ["t_graph_density"] /\
  feature_list =
    [ "s_avg_clustering_coef"; "t_num_dev_nodes"; "t_num_dev_per_file";
      "t_graph_density"; "st_num_dev"; "t_net_overlap" ] /\
  forall f, In f ["t_graph_density"] ->
    f = "s_avg_clustering_coef" \/ f = "t_num_dev_nodes" \/
    f = "t_num_dev_per_file" \/ f = "t_graph_density" \/
    f = "st_num_dev" \/ f = "t_net_overlap".
Proof.
  split; [reflexivity|].
  apply (evaluate_within_tracked_features falling_table 9 ["t_graph_density"]).
  reflexivity.
Defined.


Lemma falling_table_rows : has_rows 4 falling_table.
Proof. apply has_rows_list_to_map. repeat constructor. Defined.

Lemma falling_table_small (f : string) (col : Series float) :
  In f ["t_graph_density"; "st_num_dev"] ->
  getitem falling_table f = Ok col -> small_integers col.
Proof.
  intros [<-|[<-|[]]] Hcol; vm_compute in Hcol; injection Hcol as <-.
  - exists [1; 9; 1; 9]. split; [|reflexivity].
    repeat constructor; left; vm_compute; reflexivity.
  - reflexivity.
Defined.

Lemma evaluate_row_order_small_integers_witness :
  let p := [0; 1; 3; 2]%nat in
  let names := ["t_graph_density"; "st_num_dev"] in
  has_rows 4 falling_table /\
  Permutation p (seq 0 4) /\
  (forall f col,
     In f names -> getitem falling_table f = Ok col -> small_integers col) /\
  (forall e,
     calculate_feature_differences (take_rows p falling_table) 9 names
     = Raise e
     <-> calculate_feature_differences falling_table 9 names = Raise e) /\
  (forall r r',
     calculate_feature_differences falling_table 9 names = Ok r ->
     calculate_feature_differences (take_rows p falling_table) 9 names
     = Ok r' ->
     exists keep keep',
       r = List.filter keep (dedup names) /\
       r' = List.filter keep' (dedup names)) /\
  calculate_feature_differences (take_rows p falling_table) 9 names
  = calculate_feature_differences falling_table 9 names.
Proof.
  intros p names.
  assert (Hperm : Permutation p (seq 0 4)).
  { unfold p. simpl. do 2 apply perm_skip. apply perm_swap. }
  split; [exact falling_table_rows|]. split; [exact Hperm|].
  split; [exact falling_table_small|].
  destruct (evaluate_row_order_small_integers 4 falling_table p 9 names
              falling_table_rows Hperm) as [Herr [Horder Hsame]].
  split; [exact Herr|]. split; [exact Horder|].
  exact (Hsame falling_table_small).
Defined.



Lemma select_keeps_entries_with_a_triggered_token_witness :
  is_entry_list example_world 4%nat [0; 1; 2; 3]%nat /\
  exists l w' keep,
    filter_json_by_features 4%nat ["t_graph_density"] example_world
      = (Ok l, w') /\
    objects w' !! l = Some (OList (List.filter keep [0; 1; 2; 3]%nat)) /\
    forall r e,
      In r [0; 1; 2; 3]%nat -> objects example_world !! r = Some (ODict e) ->
      (keep r = true <->
       exists t, In t (tokens e) /\ In t ["t_graph_density"]) /\
      (~ In "" ["t_graph_density"] ->
       (keep r = true <->
        exists t, In t (tokens_as_specified e) /\ In t ["t_graph_density"]) /\
       (Features e = None -> keep r = false)).
Proof.
  split; [exact example_world_entries|].
  apply (select_keeps_entries_with_a_triggered_token
           example_world 4%nat [0; 1; 2; 3]%nat ["t_graph_density"]).
  exact example_world_entries.
Defined.

Lemma extractor_result_sorted_stable_witness :
  is_entry_list example_world 4%nat [0; 1; 2; 3]%nat /\
  calculate_feature_differences falling_table 9 feature_list
    = Ok ["t_graph_density"] /\
  exists l w' res,
    ReACT_Extractor 4%nat falling_table 9 true example_world = (Ok l, w') /\
    objects w' !! l = Some (OList res) /\
    Permutation res (kept example_world ["t_graph_density"] [0; 1; 2; 3]%nat) /\
    (forall a b, before a b res ->
       (get_Importance (entry_at example_world b)
        <= get_Importance (entry_at example_world a))%Q) /\
    (forall q,
       List.filter
         (fun r => Qeq_bool (get_Importance (entry_at example_world r)) q) res
       = List.filter
           (fun r => Qeq_bool (get_Importance (entry_at example_world r)) q)
           (kept example_world ["t_graph_density"] [0; 1; 2; 3]%nat)).
Proof.
  split; [exact example_world_entries|]. split; [reflexivity|].
  apply (extractor_result_sorted_stable
           example_world 4%nat [0; 1; 2; 3]%nat falling_table 9 true
           ["t_graph_density"]).
  - exact example_world_entries.
  - reflexivity.
Defined.

Lemma all_months_mapping_witness :
  is_entry_list example_world 4%nat [0; 1; 2; 3]%nat /\
  getitem falling_table "month" = Ok (SInt [8; 1; 9; 1]) /\
  exists (all_results : dict Z loc) (w' : world) (doc : list (Z * list entry)),
    main_all 4%nat falling_table example_world = (Ok all_results, w') /\
    unique_sorted (num := float) (SInt [8; 1; 9; 1])
      = map IntScalar (dict_keys all_results) /\
    (forall z, In z (dict_keys all_results) <-> In z [8; 1; 9; 1]) /\
    StronglySorted Z.lt (dict_keys all_results) /\
    (forall z l, In (z, l) all_results ->
       exists l0 w0 res,
         ReACT_Extractor 4%nat falling_table z false example_world
           = (Ok l0, w0) /\
         output w0 = output example_world /\
         objects w0 !! l0 = Some (OList res) /\
         objects w' !! l = Some (OList res)) /\
    output w' =
      output example_world
      ++ [EWrite output_path (DocMap doc); EPrint all_saved_message] /\
    map fst doc = dict_keys all_results /\
    (forall z es, In (z, es) doc ->
       exists l0 w0,
         ReACT_Extractor 4%nat falling_table z true example_world
           = (Ok l0, w0) /\
         output w0 =
           output example_world
           ++ [EWrite output_path (DocList es); EPrint saved_message]).
Proof.
  split; [exact example_world_entries|]. split; [reflexivity|].
  apply (all_months_mapping example_world 4%nat [0; 1; 2; 3]%nat
           falling_table [8; 1; 9; 1]).
  - exact example_world_entries.
  - reflexivity.
  - apply tracked_columns_present. repeat constructor.
Defined.

Lemma extractor_leaves_entries_unchanged_witness :
  let run := ReACT_Extractor 4%nat falling_table 9 true example_world in
  (forall x o,
      objects example_world !! x = Some o ->
      objects (snd run) !! x = Some o) /\
  forall items l,
    is_entry_list example_world 4%nat items -> fst run = Ok l ->
    objects example_world !! l = None /\
    exists res keep,
      objects (snd run) !! l = Some (OList res) /\
      Permutation res (List.filter keep items).
Proof.
  intros run.
  apply (extractor_leaves_entries_unchanged
           example_world 4%nat falling_table 9 true (fst run) (snd run)).
  vm_compute. reflexivity.
Defined.

Example all_months_keys :
  fst (main_all 4%nat falling_table example_world)
  = Ok [(1, 6%nat); (8, 8%nat); (9, 10%nat)].
Proof. vm_compute. reflexivity. Qed.

Example single_month_result :
  let run := ReACT_Extractor 4%nat falling_table 9 true example_world in
  fst run = Ok 6%nat /\
  objects (snd run) !! 6%nat = Some (OList [0; 3]%nat) /\
  output (snd run)
  = [EWrite output_path (DocList [entry_a; entry_d]); EPrint saved_message].
Proof. vm_compute. repeat split; reflexivity. Qed.

(** ** The further properties at concrete inputs *)

Lemma ranked_world_entries :
  is_entry_list ranked_world 4%nat [1; 2; 0; 3]%nat.
Proof.
  split; [reflexivity|].
  repeat constructor; eexists; reflexivity.
Defined.

Lemma evaluate_reports_first_absent_feature_witness :
  calculate_feature_differences example_table 9
    (["t_graph_density"] ++ "st_num_dev" :: ["t_net_overlap"])
  = Raise (KeyError "st_num_dev").
Proof.
  apply (evaluate_reports_first_absent_feature
           example_table 9 ["t_graph_density"] "st_num_dev" ["t_net_overlap"]).
  - intros f [<-|[]]. eexists. reflexivity.
  - intros [s Hs]. discriminate Hs.
Defined.

Lemma evaluate_reads_named_columns_only_witness :
  calculate_feature_differences example_table 9 ["t_graph_density"]
  = calculate_feature_differences example_table_wide 9 ["t_graph_density"].
Proof.
  apply (evaluate_reads_named_columns_only
           example_table example_table_wide 9 ["t_graph_density"]).
  - reflexivity.
  - intros f [<-|[]]. reflexivity.
Defined.

Lemma evaluate_skips_column_without_values_witness :
  calculate_feature_differences nan_table 9 ["t_graph_density"] = Ok [] /\
  ~ In "t_graph_density" (@nil string).
Proof.
  split; [reflexivity|].
  apply (evaluate_skips_column_without_values
           nan_table 9 ["t_graph_density"] [] "t_graph_density"
           (SNum [PrimFloat.nan; PrimFloat.nan])).
  - reflexivity.
  - reflexivity.
  - reflexivity.
Defined.

Lemma evaluate_float_month_overflow_witness :
  let df : DataFrame float :=
    list_to_map [("month", SNum [9%float]);
                 ("t_graph_density", SNum [5%float])] in
  ["t_graph_density"] <> [] /\
  getitem df "month" = Ok (SNum [9%float]) /\
  num_isinf (F64.of_Z (2 ^ 1024)) = true /\
  calculate_feature_differences df (2 ^ 1024) ["t_graph_density"]
  = Raise OverflowError.
Proof.
  intros df.
  assert (Hinf : num_isinf (F64.of_Z (2 ^ 1024)) = true)
    by (vm_compute; reflexivity).
  split; [discriminate|]. split; [reflexivity|]. split; [exact Hinf|].
  apply (evaluate_float_month_overflow df (2 ^ 1024) ["t_graph_density"]
           [9%float]).
  - discriminate.
  - intros f [<-|[]]. eexists. reflexivity.
  - reflexivity.
  - right. exact Hinf.
Defined.

Lemma evaluate_month_shift_witness :
  calculate_feature_differences (shift_months 12 falling_table) (9 + 12)
    feature_list
  = calculate_feature_differences falling_table 9 feature_list.
Proof.
  apply (evaluate_month_shift 12 falling_table 9 feature_list).
  - simpl. intros Hin.
    destruct Hin as [Hc|[Hc|[Hc|[Hc|[Hc|[Hc|[]]]]]]]; discriminate Hc.
  - intros l Hl. discriminate Hl.
Defined.

Lemma select_depends_on_name_set_witness :
  filter_json_by_features 4%nat ["st_num_dev"; "t_net_overlap"] example_world
  = filter_json_by_features 4%nat
      ["t_net_overlap"; "st_num_dev"; "t_net_overlap"] example_world.
Proof.
  apply (select_depends_on_name_set example_world 4%nat [0; 1; 2; 3]%nat).
  - exact example_world_entries.
  - intros f. simpl. tauto.
Defined.

Lemma select_never_matches_untrimmed_names_witness :
  exists l w',
    filter_json_by_features 4%nat [" t_graph_density"; "x,t_graph_density"]
      example_world = (Ok l, w') /\
    objects w' !! l = Some (OList []).
Proof.
  apply (select_never_matches_untrimmed_names
           example_world 4%nat [0; 1; 2; 3]%nat).
  - exact example_world_entries.
  - intros f [<-|[<-|[]]].
    + left. vm_compute. discriminate.
    + right. reflexivity.
Defined.

Lemma select_again_keeps_everything_witness :
  exists l1 w1 l2 w2 ks,
    filter_json_by_features 4%nat ["t_graph_density"] example_world
      = (Ok l1, w1) /\
    filter_json_by_features l1 ["t_graph_density"] w1 = (Ok l2, w2) /\
    objects w1 !! l1 = Some (OList ks) /\
    objects w2 !! l2 = Some (OList ks) /\
    objects w2 !! l1 = Some (OList ks).
Proof.
  apply (select_again_keeps_everything example_world 4%nat [0; 1; 2; 3]%nat).
  exact example_world_entries.
Defined.

Lemma sorted_keeps_descending_list_witness :
  exists l' w',
    sorted_by_Importance 4%nat ranked_world = (Ok l', w') /\
    l' <> 4%nat /\
    objects w' !! l' = Some (OList [1; 2; 0; 3]%nat) /\
    objects w' !! 4%nat = Some (OList [1; 2; 0; 3]%nat).
Proof.
  apply (sorted_keeps_descending_list ranked_world 4%nat [1; 2; 0; 3]%nat).
  - exact ranked_world_entries.
  - repeat constructor; vm_compute; intros Hc; discriminate Hc.
Defined.

Lemma write_output_only_adds_output_witness :
  let quiet := ReACT_Extractor 4%nat falling_table 9 false example_world in
  let loud := ReACT_Extractor 4%nat falling_table 9 true example_world in
  fst quiet = Ok 6%nat /\ fst loud = Ok 6%nat /\
  objects (snd loud) = objects (snd quiet) /\
  output (snd quiet) = output example_world /\
  exists es,
    output (snd loud)
      = output example_world
        ++ [EWrite output_path (DocList es); EPrint saved_message] /\
    dump_list 6%nat (snd quiet) = (Ok es, snd quiet).
Proof.
  intros quiet loud.
  assert (Hquiet : quiet = (Ok 6%nat, snd quiet)) by (vm_compute; reflexivity).
  assert (Hloud : loud = (Ok 6%nat, snd loud)) by (vm_compute; reflexivity).
  split; [vm_compute; reflexivity|]. split; [vm_compute; reflexivity|].
  apply (write_output_only_adds_output
           example_world 4%nat [0; 1; 2; 3]%nat falling_table 9
           6%nat 6%nat (snd quiet) (snd loud)
           example_world_entries Hquiet Hloud).
Defined.

Lemma extractor_returns_tracked_entries_only_witness :
  objects (snd (ReACT_Extractor 4%nat falling_table 9 true example_world))
    !! 6%nat = Some (OList [0; 3]%nat) /\
  forall r, In r [0; 3]%nat ->
    exists e t,
      objects example_world !! r = Some (ODict e) /\
      In t (tokens e) /\ In t feature_list.
Proof.
  split; [vm_compute; reflexivity|].
  apply (extractor_returns_tracked_entries_only
           example_world 4%nat [0; 1; 2; 3]%nat falling_table 9 true 6%nat
           (snd (ReACT_Extractor 4%nat falling_table 9 true example_world))
           [0; 3]%nat).
  - exact example_world_entries.
  - vm_compute. reflexivity.
  - vm_compute. reflexivity.
Defined.

Lemma extractor_failure_writes_nothing_witness :
  ReACT_Extractor 4%nat example_table 9 false example_world
    = (Raise (KeyError "s_avg_clustering_coef"), example_world) /\
  ReACT_Extractor 4%nat example_table 9 true example_world
    = (Raise (KeyError "s_avg_clustering_coef"), example_world) /\
  output example_world = output example_world.
Proof.
  split; [reflexivity|].
  apply (extractor_failure_writes_nothing
           example_world 4%nat example_table 9
           (KeyError "s_avg_clustering_coef") example_world).
  reflexivity.
Defined.

Lemma all_months_failure_writes_nothing_witness :
  all_months_results 4%nat example_table example_world
    = (Raise (KeyError "s_avg_clustering_coef"), example_world) /\
  main_all 4%nat example_table example_world
    = (Raise (KeyError "s_avg_clustering_coef"), example_world) /\
  output example_world = output example_world.
Proof.
  split; [vm_compute; reflexivity|].
  apply (all_months_failure_writes_nothing
           example_world 4%nat example_table
           (KeyError "s_avg_clustering_coef") example_world).
  vm_compute. reflexivity.
Defined.

Lemma extractor_rerun_same_entries_witness :
  exists l1 w1 l2 w2 res,
    ReACT_Extractor 4%nat falling_table 9 true example_world = (Ok l1, w1) /\
    ReACT_Extractor 4%nat falling_table 9 false w1 = (Ok l2, w2) /\
    l2 <> l1 /\
    objects w1 !! l1 = Some (OList res) /\
    objects w2 !! l1 = Some (OList res) /\
    objects w2 !! l2 = Some (OList res).
Proof.
  apply (extractor_rerun_same_entries
           example_world 4%nat [0; 1; 2; 3]%nat falling_table 9 true false
           ["t_graph_density"]).
  - exact example_world_entries.
  - reflexivity.
Defined.

Lemma single_month_agrees_with_all_months_witness :
  exists es w1 d w2 doc,
    main_single 4%nat falling_table 9 example_world = (Ok es, w1) /\
    output w1
      = output example_world
        ++ [EWrite output_path (DocList es); EPrint saved_message] /\
    main_all 4%nat falling_table example_world = (Ok d, w2) /\
    output w2
      = output example_world
        ++ [EWrite output_path (DocMap doc); EPrint all_saved_message] /\
    In (9, es) doc.
Proof.
  apply (single_month_agrees_with_all_months
           example_world 4%nat [0; 1; 2; 3]%nat falling_table [8; 1; 9; 1] 9).
  - exact example_world_entries.
  - reflexivity.
  - apply tracked_columns_present. repeat constructor.
  - simpl. tauto.
Defined.

Lemma all_months_on_empty_table_witness :
  main_all 4%nat empty_table example_world
  = (Ok [],
     {| objects := objects example_world;
        output := output example_world
                  ++ [EWrite output_path (DocMap []);
                      EPrint all_saved_message] |}).
Proof.
  apply (all_months_on_empty_table example_world 4%nat empty_table (SInt [])).
  - reflexivity.
  - reflexivity.
Defined.

Example main_single_prints :
  fst (main_single 4%nat falling_table 9 example_world)
  = Ok [entry_a; entry_d].
Proof. vm_compute. reflexivity. Qed.
